(** * pfb/exporters/frictionless.py: PFB to Frictionless data packages

    A shallow embedding of the exporter and the properties of its schema
    translation and of its streaming writer.

    Python values are modelled by a JSON-like [value] type; Python's
    insertion-ordered dictionaries ([dict], [OrderedDict]) by association
    lists whose [dset] keeps the position of a key that is already present
    and appends a new key at the end; exceptions by the [result] type. *)

From Stdlib Require Import List String Ascii ZArith Bool Lia DecimalString.
Import ListNotations.
Local Open Scope string_scope.
Local Open Scope list_scope.

Set Implicit Arguments.
Set Warnings "-register-all".

(** ** Exceptions *)

Inductive exn : Type :=
| KeyError
| AttributeError
| TypeError
| ValueError.

Inductive result (A : Type) : Type :=
| Ok (a : A)
| Err (e : exn).

Arguments Ok {A} a.
Arguments Err {A} e.

Definition bind {A B : Type} (r : result A) (k : A -> result B) : result B :=
  match r with
  | Ok a => k a
  | Err e => Err e
  end.

Declare Scope result_scope.
Delimit Scope result_scope with result.
Notation "x <- r ;; k" := (bind r (fun x => k))
  (at level 61, r at next level, right associativity) : result_scope.

(** A [for] loop whose body may raise: the first exception ends the loop. *)
Fixpoint foldM {A B : Type} (body : B -> A -> result B) (l : list A) (acc : B)
  : result B :=
  match l with
  | [] => Ok acc
  | x :: l' => bind (body acc x) (foldM body l')
  end.

(** A list comprehension whose element expression may raise. *)
Fixpoint mapM {A B : Type} (f : A -> result B) (l : list A) : result (list B) :=
  match l with
  | [] => Ok []
  | x :: l' => bind (f x) (fun y => bind (mapM f l') (fun ys => Ok (y :: ys)))
  end.

(** ** Insertion-ordered dictionaries *)

Section Dict.
Variables (K V : Type) (eqb : K -> K -> bool).

(** [d.get(k)] *)
Fixpoint dget (k : K) (d : list (K * V)) : option V :=
  match d with
  | [] => None
  | (k', v) :: d' => if eqb k k' then Some v else dget k d'
  end.

(** [d[k] = v] *)
Fixpoint dset (k : K) (v : V) (d : list (K * V)) : list (K * V) :=
  match d with
  | [] => [(k, v)]
  | (k', v') :: d' =>
      if eqb k k' then (k', v) :: d' else (k', v') :: dset k v d'
  end.

(** [d.update(src)] *)
Definition dupdate (d src : list (K * V)) : list (K * V) :=
  fold_left (fun acc kv => dset (fst kv) (snd kv) acc) src d.

(** [list(d)]: the keys in insertion order *)
Definition dkeys (d : list (K * V)) : list K := map fst d.

(** [k in d] *)
Definition dmem (k : K) (d : list (K * V)) : bool :=
  match dget k d with Some _ => true | None => false end.
End Dict.

(** ** Values *)

Inductive value : Type :=
| VNone
| VBool (b : bool)
| VInt (z : Z)
| VStr (s : string)
| VList (l : list value)
| VDict (d : list (string * value)).

Definition odict : Type := list (string * value).

Definition sget (k : string) (d : odict) : option value := dget String.eqb k d.
Definition sset (k : string) (v : value) (d : odict) : odict :=
  dset String.eqb k v d.
Definition supdate (d src : odict) : odict := dupdate String.eqb d src.

(** [v == s] for a value [v] that came out of [.get] and a string literal *)
Definition value_is_str (v : option value) (s : string) : bool :=
  match v with
  | Some (VStr s') => String.eqb s' s
  | _ => false
  end.

(** [for x in v]: a list gives its items, a string its characters, a dict
    its keys; the other values are not iterable. *)
Fixpoint chars (s : string) : list string :=
  match s with
  | EmptyString => []
  | String c s' => String c EmptyString :: chars s'
  end.

Definition iter_items (v : value) : result (list value) :=
  match v with
  | VList l => Ok l
  | VStr s => Ok (map VStr (chars s))
  | VDict d => Ok (map VStr (dkeys d))
  | VNone | VBool _ | VInt _ => Err TypeError
  end.

(** [v[k]] for a string key [k]: only a dict can be indexed by a string. *)
Definition getitem (v : value) (k : string) : result value :=
  match v with
  | VDict d =>
      match sget k d with
      | Some x => Ok x
      | None => Err KeyError
      end
  | _ => Err TypeError
  end.

(** Field names, foreign-key fields and referenced resources are strings in
    every schema [_get_schema] builds; this is where the model insists on
    it. *)
Definition as_str (v : value) : result string :=
  match v with
  | VStr s => Ok s
  | _ => Err TypeError
  end.

(** [str.lower()] on ASCII letters; other bytes are left as they are. *)
Definition lower_ascii (c : ascii) : ascii :=
  let n := nat_of_ascii c in
  if (65 <=? n)%nat && (n <=? 90)%nat then ascii_of_nat (n + 32) else c.

Fixpoint lower (s : string) : string :=
  match s with
  | EmptyString => EmptyString
  | String c s' => String (lower_ascii c) (lower s')
  end.

(** ** The reader's data *)

(** An element of a field's [type] list: a type name, or a complex type
    given as a dict (an enum is [{type: enum, symbols: [...]}]). *)
Inductive TypeTag : Type :=
| TScalar (s : string)
| TComplex (d : odict).

Record SourceField : Type := {
  field_name : string;
  field_type : list TypeTag
}.

(** Metadata is read with [.get] and tested for truth, so an absent key,
    [None] and the empty value behave alike: all three are the empty string,
    the empty mapping or the empty list here. *)
Record FieldMeta : Type := {
  fm_name : string;
  fm_ontology_reference : string;
  fm_values : list (string * string)
}.

Record Link : Type := {
  link_name : string;
  link_dst : string
}.

Record NodeMetadata : Type := {
  nm_name : string;
  nm_ontology_reference : string;
  nm_values : list (string * string);
  nm_links : list Link;
  nm_properties : list FieldMeta
}.

Record NodeSchema : Type := {
  ns_name : string;
  ns_fields : list SourceField
}.

Record Relation : Type := {
  dst_name : string;
  dst_id : value
}.

Record PfbRecord : Type := {
  rec_name : string;
  rec_object : odict;
  rec_relations : list Relation
}.

Record Reader : Type := {
  metadata_nodes : list NodeMetadata;
  schema : list NodeSchema;
  records : list PfbRecord
}.

(** The [values] mapping of a metadata entry as a dict of string values. *)
Definition values_dict (vs : list (string * string)) : odict :=
  map (fun kv => (fst kv, VStr (snd kv))) vs.

(** ** Field descriptors *)

Definition type_map : list (string * string) :=
  [("string", "string"); ("float", "number"); ("long", "integer");
   ("boolean", "boolean")].

(** One turn of the loop of [_add_type].  [type.get] exists on a dict only;
    on a type name the [AttributeError] handler looks the name up in
    [type_map]. *)
Definition add_type_step (descriptor : odict) (type : TypeTag) : result odict :=
  match type with
  | TComplex d =>
      if value_is_str (sget "type" d) "enum" then
        let descriptor := sset "type" (VStr "string") descriptor in
        match sget "symbols" d with
        | Some symbols =>
            Ok (sset "constraints" (VDict [("enum", symbols)]) descriptor)
        | None => Err KeyError
        end
      else Ok descriptor
  | TScalar s =>
      match dget String.eqb s type_map with
      | Some t => Ok (sset "type" (VStr t) descriptor)
      | None => Ok descriptor
      end
  end.

Definition _add_type (field : SourceField) (descriptor : odict) : result odict :=
  foldM add_type_step (field_type field) descriptor.

Definition merge_meta (meta : FieldMeta) (descriptor : odict) : odict :=
  if value_is_str (sget "name" descriptor) (fm_name meta) then
    let descriptor :=
      if String.eqb (fm_ontology_reference meta) "" then descriptor
      else sset "ontology_reference" (VStr (fm_ontology_reference meta))
             descriptor in
    match fm_values meta with
    | [] => descriptor
    | _ :: _ => supdate descriptor (values_dict (fm_values meta))
    end
  else descriptor.

(** [meta] is [None] when the node's metadata has no entry for the field:
    [None.get] raises [AttributeError], which is passed over. *)
Definition _field_descriptor (field : SourceField) (meta : option FieldMeta)
  : result odict :=
  (descriptor <- _add_type field [("name", VStr (field_name field))] ;;
   match meta with
   | Some m => Ok (merge_meta m descriptor)
   | None => Ok descriptor
   end)%result.

(** ** Table schemas *)

(** [schema['fields'].append(f)] *)
Definition fields_append (schema : odict) (f : value) : result odict :=
  match sget "fields" schema with
  | None => Err KeyError
  | Some (VList fs) => Ok (sset "fields" (VList (fs ++ [f])) schema)
  | Some _ => Err AttributeError
  end.

Definition foreign_key (link : Link) : value :=
  VDict [("fields", VStr (link_name link));
         ("reference", VDict [("resource", VStr (link_dst link));
                              ("fields", VStr "submitter_id")])].

(** The loop state of [_add_foreign_keys] is the pair of the local list
    [foreign_keys] and the schema whose [fields] list grows. *)
Definition add_foreign_key_step (acc : list value * odict) (link : Link)
  : result (list value * odict) :=
  (let foreign_keys := fst acc ++ [foreign_key link] in
   schema <- fields_append (snd acc) (VDict [("name", VStr (link_name link))]) ;;
   Ok (foreign_keys, schema))%result.

Definition _add_foreign_keys (schema : odict) (links : list Link) : result odict :=
  (acc <- foldM add_foreign_key_step links ([], schema) ;;
   Ok (sset "foreignKeys" (VList (fst acc)) (snd acc)))%result.

(** [{p['name']: p for p in properties}] *)
Definition index_by_name {A : Type} (name : A -> string) (l : list A)
  : list (string * A) :=
  fold_left (fun d x => dset String.eqb (name x) x d) l [].

(** The schema before links and node-level annotations are added: the field
    descriptors and, when one of them is named [submitter_id], the primary
    key. *)
Definition base_schema (fields : list odict) : odict :=
  let schema := [("fields", VList (map VDict fields))] in
  if existsb (fun f => value_is_str (sget "name" f) "submitter_id") fields
  then sset "primaryKey" (VStr "submitter_id") schema
  else schema.

(** Node-level [ontology_reference] and [values], added last. *)
Definition annotate_schema (meta : NodeMetadata) (schema : odict) : odict :=
  let schema :=
    if String.eqb (nm_ontology_reference meta) "" then schema
    else sset "ontology_reference" (VStr (nm_ontology_reference meta)) schema in
  match nm_values meta with
  | [] => schema
  | _ :: _ => supdate schema (values_dict (nm_values meta))
  end.

Definition field_descriptors (record : NodeSchema) (meta : NodeMetadata)
  : result (list odict) :=
  let fld_meta := index_by_name fm_name (nm_properties meta) in
  mapM (fun field =>
          _field_descriptor field (dget String.eqb (field_name field) fld_meta))
       (ns_fields record).

Definition _get_schema (record : NodeSchema) (meta : NodeMetadata) : result odict :=
  (fields <- field_descriptors record meta ;;
   let schema := base_schema fields in
   schema <- match nm_links meta with
             | [] => Ok schema
             | _ :: _ => _add_foreign_keys schema (nm_links meta)
             end ;;
   Ok (annotate_schema meta schema))%result.

Definition get_schemas_step (meta : list (string * NodeMetadata))
  (schemas : list (string * odict)) (node : NodeSchema)
  : result (list (string * odict)) :=
  match dget String.eqb (ns_name node) meta with
  | None => Err KeyError
  | Some m =>
      (s <- _get_schema node m ;;
       Ok (dset String.eqb (ns_name node) s schemas))%result
  end.

Definition _get_schemas (reader : Reader) : result (list (string * odict)) :=
  let meta := index_by_name nm_name (metadata_nodes reader) in
  foldM (get_schemas_step meta) (schema reader) [].

(** ** Paths and the disk *)

(** A path is the list of its segments; [p / s] adds one segment.  Project
    ids and node names are taken to be plain names (no separator in them). *)
Definition path : Type := list string.

Definition path_div (p : path) (s : string) : path := p ++ [s].
Infix "/" := path_div : list_scope.

Definition parent (p : path) : path := removelast p.

Fixpoint path_eqb (p q : path) : bool :=
  match p, q with
  | [], [] => true
  | s :: p', t :: q' => String.eqb s t && path_eqb p' q'
  | _, _ => false
  end.

Definition pair_eqb (a b : string * string) : bool :=
  String.eqb (fst a) (fst b) && String.eqb (snd a) (snd b).

(** What the exporter leaves at a path: a JSON document (a table schema or
    a package descriptor, kept as the value that [json.dumps] prints), or a
    data file that was opened for writing.  The rows of a data file are the
    rows written through the writers opened on it.  Directories are implicit
    and I/O itself is assumed to succeed. *)
Inductive file : Type :=
| JsonFile (doc : value)
| DataFile.

Definition Disk : Type := list (path * file).

(** ** csv.DictWriter *)

Record DictWriter : Type := {
  w_path : path;
  w_fieldnames : list string;
  w_rows : list (list value)
}.

Definition emit (w : DictWriter) (row : list value) : DictWriter :=
  {| w_path := w_path w;
     w_fieldnames := w_fieldnames w;
     w_rows := w_rows w ++ [row] |}.

(** [rowdict.get(key, '')] for every field name, in order *)
Definition dict_to_list (fieldnames : list string) (rowdict : odict) : list value :=
  map (fun key => match sget key rowdict with
                  | Some v => v
                  | None => VStr ""
                  end) fieldnames.

(** [extrasaction] is left at its default, ['raise']: a key of the row that
    is no field name is a [ValueError]. *)
Definition writerow (w : DictWriter) (rowdict : odict) : result DictWriter :=
  if forallb (fun k => existsb (String.eqb k) (w_fieldnames w)) (dkeys rowdict)
  then Ok (emit w (dict_to_list (w_fieldnames w) rowdict))
  else Err ValueError.

(** [writeheader] writes the row [dict(zip(fieldnames, fieldnames))], which
    has no key outside [fieldnames]: the row of the field names. *)
Definition writeheader (w : DictWriter) : DictWriter :=
  emit w (map VStr (w_fieldnames w)).

(** The text of a row as the csv writer prints it with [delimiter='\t'] and
    minimal quoting, without the line terminator.  [str()] of a list or of a
    dict is not modelled. *)
Definition tab : ascii := ascii_of_nat 9.
Definition dquote : ascii := ascii_of_nat 34.

Fixpoint needs_quote (s : string) : bool :=
  match s with
  | EmptyString => false
  | String c s' =>
      Ascii.eqb c tab || Ascii.eqb c dquote || Ascii.eqb c (ascii_of_nat 13)
      || Ascii.eqb c (ascii_of_nat 10) || needs_quote s'
  end.

Fixpoint double_quotes (s : string) : string :=
  match s with
  | EmptyString => EmptyString
  | String c s' =>
      if Ascii.eqb c dquote then String c (String c (double_quotes s'))
      else String c (double_quotes s')
  end.

Definition csv_quote (s : string) : string :=
  if needs_quote s
  then String dquote (double_quotes s ++ String dquote EmptyString)
  else s.

Definition csv_text (v : value) : option string :=
  match v with
  | VNone => Some ""
  | VStr s => Some s
  | VInt z => Some (NilZero.string_of_int (Z.to_int z))
  | VBool true => Some "True"
  | VBool false => Some "False"
  | VList _ | VDict _ => None
  end.

Fixpoint csv_join (cells : list string) : string :=
  match cells with
  | [] => ""
  | [c] => c
  | c :: cells' => c ++ String tab (csv_join cells')
  end.

Fixpoint csv_texts (row : list value) : option (list string) :=
  match row with
  | [] => Some []
  | v :: row' =>
      match csv_text v, csv_texts row' with
      | Some t, Some ts => Some (t :: ts)
      | _, _ => None
      end
  end.

(** A row whose only field is empty is written as a pair of quotes. *)
Definition csv_line (row : list value) : option string :=
  match csv_texts row with
  | Some [t] =>
      if String.eqb t "" then Some (String dquote (String dquote EmptyString))
      else Some (csv_quote t)
  | Some ts => Some (csv_join (map csv_quote ts))
  | None => None
  end.

(** ** Writing the tables *)

(** [writers] are the writers opened so far, by (project id, node name);
    the files under them stay open until the pass ends, so a writer's rows
    are what has been written through it. *)
Record state : Type := {
  writers : list ((string * string) * DictWriter);
  disk : Disk
}.

(** Code that raises leaves the files it has written behind: a step returns
    its result or its exception together with the state it reached. *)
Definition M (A : Type) : Type := state -> result A * state.

Definition ret {A : Type} (a : A) : M A := fun st => (Ok a, st).

Definition bindM {A B : Type} (m : M A) (k : A -> M B) : M B :=
  fun st =>
    match m st with
    | (Ok a, st') => k a st'
    | (Err e, st') => (Err e, st')
    end.

Definition lift {A : Type} (r : result A) : M A := fun st => (r, st).

Declare Scope run_scope.
Delimit Scope run_scope with run.
Notation "x <- m ;; k" := (bindM m (fun x => k))
  (at level 61, m at next level, right associativity) : run_scope.

Fixpoint forM {A : Type} (body : A -> M unit) (l : list A) : M unit :=
  match l with
  | [] => ret tt
  | x :: l' => bindM (body x) (fun _ => forM body l')
  end.

Fixpoint foldMS {A B : Type} (body : B -> A -> M B) (l : list A) (acc : B) : M B :=
  match l with
  | [] => ret acc
  | x :: l' => bindM (body acc x) (foldMS body l')
  end.

Definition schema_path (dirpath : path) (name : string) : path :=
  dirpath / (lower name ++ ".json").

Definition _write_schema (name : string) (schema : odict) (dirpath : path)
  : M unit :=
  fun st =>
    (Ok tt,
     {| writers := writers st;
        disk := dset path_eqb (schema_path dirpath name)
                  (JsonFile (VDict schema)) (disk st) |}).

(** [[f['name'] for f in schema['fields']]] *)
Definition schema_fieldnames (schema : odict) : result (list string) :=
  (fields <- getitem (VDict schema) "fields" ;;
   items <- iter_items fields ;;
   mapM (fun f => n <- getitem f "name" ;; as_str n) items)%result.

(** [relations.get(key)]: the keys of [relations] are strings, so another
    hashable key finds nothing. *)
Definition relations_get (relations : odict) (key : value) : result value :=
  match key with
  | VStr s => Ok (match sget s relations with Some v => v | None => VNone end)
  | VList _ | VDict _ => Err TypeError
  | VNone | VBool _ | VInt _ => Ok VNone
  end.

(** [dict[k['fields']] = relations.get(k['reference']['resource'])]: the
    right-hand side is evaluated first. *)
Definition resolve_step (relations : odict) (dict : odict) (k : value)
  : result odict :=
  (reference <- getitem k "reference" ;;
   resource <- getitem reference "resource" ;;
   v <- relations_get relations resource ;;
   f <- getitem k "fields" ;;
   f <- as_str f ;;
   Ok (sset f v dict))%result.

(** [{i['dst_name']: i['dst_id'] for i in relations}] *)
Definition relations_dict (rels : list Relation) : odict :=
  fold_left (fun d i => sset (dst_name i) (dst_id i) d) rels [].

Definition resolve_foreign_keys (record : PfbRecord) (schema : odict)
  : result odict :=
  let dict := rec_object record in
  let relations := relations_dict (rec_relations record) in
  match sget "foreignKeys" schema with
  | Some fks =>
      (items <- iter_items fks ;;
       foldM (resolve_step relations) items dict)%result
  | None => Ok dict
  end.

Definition _write_record (writer : DictWriter) (record : PfbRecord)
  (schema : odict) : result DictWriter :=
  (dict <- resolve_foreign_keys record schema ;;
   writerow writer dict)%result.

Definition data_path (pkg : path) (table : string) : path :=
  pkg / "data" / (lower table ++ ".tsv").

(** The body of the loop [for table in schemas], run when a project is
    first seen: the schema file is written, then the data file is opened and
    its header written.  [table] is a key of [schemas], so [schemas[table]]
    is there. *)
Definition open_table (schemas : list (string * odict)) (pkg : path)
  (project_id : string) (table : string) : M unit :=
  let p := data_path pkg table in
  (schema <- lift (match dget String.eqb table schemas with
                   | Some schema => Ok schema
                   | None => Err KeyError
                   end) ;;
   _ <- _write_schema table schema (parent p) ;;
   fieldnames <- lift (schema_fieldnames schema) ;;
   fun st =>
     let w := writeheader
                {| w_path := p; w_fieldnames := fieldnames; w_rows := [] |} in
     (Ok tt,
      {| writers := dset pair_eqb (project_id, table) w (writers st);
         disk := dset path_eqb p DataFile (disk st) |}))%run.

(** [record.get('object').get('project_id')], which must support [in pkgs]
    and then [.lower()] *)
Definition project_of (record : PfbRecord) : result string :=
  match sget "project_id" (rec_object record) with
  | Some (VStr s) => Ok s
  | Some (VList _) | Some (VDict _) => Err TypeError
  | Some VNone | Some (VBool _) | Some (VInt _) | None => Err AttributeError
  end.

Definition write_row (project_id : string) (schemas : list (string * odict))
  (record : PfbRecord) : M unit :=
  fun st =>
    let name := rec_name record in
    match dget pair_eqb (project_id, name) (writers st) with
    | None => (Err KeyError, st)
    | Some w =>
        match dget String.eqb name schemas with
        | None => (Err KeyError, st)
        | Some schema =>
            match _write_record w record schema with
            | Err e => (Err e, st)
            | Ok w' =>
                (Ok tt,
                 {| writers := dset pair_eqb (project_id, name) w' (writers st);
                    disk := disk st |})
            end
        end
    end.

(** [if project_id not in pkgs: ...]; [pkgs] maps the project ids seen so
    far to their package directories. *)
Definition ensure_package (schemas : list (string * odict)) (outdir : path)
  (pkgs : list (string * path)) (project_id : string)
  : M (list (string * path)) :=
  if dmem String.eqb project_id pkgs then ret pkgs
  else
    let pkg := outdir / lower project_id in
    let pkgs := dset String.eqb project_id pkg pkgs in
    (_ <- forM (open_table schemas pkg project_id) (dkeys schemas) ;;
     ret pkgs)%run.

(** One turn of the loop over the records. *)
Definition write_tables_step (schemas : list (string * odict)) (outdir : path)
  (pkgs : list (string * path)) (record : PfbRecord) : M (list (string * path)) :=
  (project_id <- lift (project_of record) ;;
   pkgs <- ensure_package schemas outdir pkgs project_id ;;
   _ <- write_row project_id schemas record ;;
   ret pkgs)%run.

Definition _write_tables (schemas : list (string * odict))
  (reader : list PfbRecord) (outdir : path) (d : Disk)
  : result (list (string * path)) * state :=
  foldMS (write_tables_step schemas outdir) reader []
    {| writers := []; disk := d |}.

(** ** The package descriptor *)

Definition resource (schema : string) : value :=
  VDict [("profile", VStr "tabular-data-resource");
         ("name", VStr (lower schema));
         ("path", VStr ("data/" ++ schema ++ ".tsv"));
         ("format", VStr "csv");
         ("mediatype", VStr "text/csv");
         ("encoding", VStr "utf-8");
         ("dialect", VDict [("delimiter", VStr (String tab EmptyString))]);
         ("schema", VStr ("data/" ++ schema ++ ".json"))].

Definition package_descriptor (project_id : string)
  (schemas : list (string * odict)) : value :=
  VDict [("name", VStr (lower project_id));
         ("resources", VList (map resource (dkeys schemas)))].

Definition _write_descriptor (project_id : string) (p : path)
  (schemas : list (string * odict)) (d : Disk) : Disk :=
  dset path_eqb (p / "datapackage.json")
    (JsonFile (package_descriptor project_id schemas)) d.

(** ** The command *)

(** The body of the [try] block: the exception, if any, is raised again, and
    what was written stays on the disk. *)
Definition frictionless (reader : Reader) (output : path) (d : Disk)
  : result (list (string * path)) * state :=
  match _get_schemas reader with
  | Err e => (Err e, {| writers := []; disk := d |})
  | Ok schemas =>
      match _write_tables schemas (records reader) output d with
      | (Err e, st) => (Err e, st)
      | (Ok pkgs, st) =>
          (Ok pkgs,
           {| writers := writers st;
              disk := fold_left
                        (fun d pkg =>
                           _write_descriptor (fst pkg) (snd pkg) schemas d)
                        pkgs (disk st) |})
      end
  end.

(** ** Reading the result back *)

(** The rows of the data file at [p]: those of the one writer opened on it.
    (Two writers on one path, which takes two project ids or two node names
    that differ in case only, leave bytes that depend on buffering.) *)
Definition tsv_rows (p : path) (st : state) : option (list (list value)) :=
  match dget path_eqb p (disk st),
        filter (fun w => path_eqb (w_path w) p) (map snd (writers st)) with
  | Some DataFile, [w] => Some (w_rows w)
  | _, _ => None
  end.

Fixpoint csv_lines (rows : list (list value)) : option (list string) :=
  match rows with
  | [] => Some []
  | r :: rows' =>
      match csv_line r, csv_lines rows' with
      | Some l, Some ls => Some (l :: ls)
      | _, _ => None
      end
  end.

Definition tsv_lines (p : path) (st : state) : option (list string) :=
  match tsv_rows p st with
  | Some rows => csv_lines rows
  | None => None
  end.

(** A path written in a descriptor, relative to the package directory. *)
Fixpoint split_path (acc : string) (s : string) : list string :=
  match s with
  | EmptyString => [acc]
  | String c s' =>
      if Ascii.eqb c "/"%char then acc :: split_path "" s'
      else split_path (acc ++ String c EmptyString) s'
  end.

Definition resolve (pkg : path) (rel : string) : path :=
  pkg ++ split_path "" rel.

(** ** Vocabulary of the statements *)

(** [t] is an enum alternative with the given symbols. *)
Definition enum_alternative (t : TypeTag) (symbols : value) : Prop :=
  exists d, t = TComplex d /\ sget "type" d = Some (VStr "enum")
            /\ sget "symbols" d = Some symbols.

(** [t] is a dict that says it is an enum. *)
Definition is_enum_tag (t : TypeTag) : bool :=
  match t with
  | TComplex d => value_is_str (sget "type" d) "enum"
  | TScalar _ => false
  end.

(** [t] is one of the four mapped type names. *)
Definition is_mapped_scalar (t : TypeTag) : bool :=
  match t with
  | TScalar s => dmem String.eqb s type_map
  | TComplex _ => false
  end.

(** Every dict of the type list that says it is an enum has its symbols. *)
Definition enums_have_symbols (types : list TypeTag) : Prop :=
  forall t, In t types -> is_enum_tag t = true ->
            exists symbols, enum_alternative t symbols.

(** The reading of the spec in which an enum alternative decides the
    descriptor wherever it stands in the type list. *)
Definition enum_always_wins : Prop :=
  forall (field : SourceField) (d0 d : odict) (t : TypeTag) (symbols : value),
    In t (field_type field) -> enum_alternative t symbols ->
    _add_type field d0 = Ok d ->
    sget "type" d = Some (VStr "string") /\
    sget "constraints" d = Some (VDict [("enum", symbols)]).

Definition enum_ab : TypeTag :=
  TComplex [("type", VStr "enum"); ("name", VStr "letter");
            ("symbols", VList [VStr "a"; VStr "b"])].

Definition enum_then_long : SourceField :=
  {| field_name := "x"; field_type := [enum_ab; TScalar "long"] |}.

(** The reading of the spec in which merging a matching metadata entry
    leaves the [name] and [type] of the descriptor as [_add_type] left
    them. *)
Definition meta_never_overrides : Prop :=
  forall (field : SourceField) (meta : FieldMeta) (d0 d : odict),
    fm_name meta = field_name field ->
    _add_type field [("name", VStr (field_name field))] = Ok d0 ->
    _field_descriptor field (Some meta) = Ok d ->
    sget "name" d = sget "name" d0 /\ sget "type" d = sget "type" d0.

Definition age_field : SourceField :=
  {| field_name := "age"; field_type := [TScalar "long"] |}.

Definition age_meta : FieldMeta :=
  {| fm_name := "age"; fm_ontology_reference := "";
     fm_values := [("type", "date")] |}.

(** The reading of the spec in which the built schema carries
    [primaryKey = submitter_id] exactly when one of its fields is named
    [submitter_id]. *)
Definition primary_key_iff_field : Prop :=
  forall (record : NodeSchema) (meta : NodeMetadata) (s : odict)
         (names : list string),
    _get_schema record meta = Ok s ->
    schema_fieldnames s = Ok names ->
    (sget "primaryKey" s = Some (VStr "submitter_id")
     <-> In "submitter_id" names).

Definition submitter_id_field : SourceField :=
  {| field_name := "submitter_id"; field_type := [TScalar "string"] |}.

Definition subject_node : NodeSchema :=
  {| ns_name := "subject"; ns_fields := [submitter_id_field; age_field] |}.

(** Node metadata whose annotations have a key [primaryKey]. *)
Definition subject_meta_keyed : NodeMetadata :=
  {| nm_name := "subject"; nm_ontology_reference := "";
     nm_values := [("primaryKey", "id")]; nm_links := [];
     nm_properties := [] |}.

Definition visit_node : NodeSchema :=
  {| ns_name := "visit"; ns_fields := [age_field] |}.

(** Node metadata with a link that is itself named [submitter_id]. *)
Definition visit_meta_linked : NodeMetadata :=
  {| nm_name := "visit"; nm_ontology_reference := ""; nm_values := [];
     nm_links := [ {| link_name := "submitter_id"; link_dst := "subject" |} ];
     nm_properties := [] |}.



Definition sample_fk : value :=
  VDict [("fields", VStr "sample_id");
         ("reference", VDict [("resource", VStr "sample");
                              ("fields", VStr "submitter_id")])].

(** An aliquot that links to its sample through column [sample_id]. *)
Definition aliquot_schema : odict :=
  [("fields", VList [VDict [("name", VStr "submitter_id");
                            ("type", VStr "string")];
                     VDict [("name", VStr "sample_id")]]);
   ("primaryKey", VStr "submitter_id");
   ("foreignKeys", VList [sample_fk])].

Definition aliquot_writer : DictWriter :=
  writeheader {| w_path := ["out"; "proj1"; "data"; "aliquot.tsv"];
                 w_fieldnames := ["submitter_id"; "sample_id"];
                 w_rows := [] |}.

Definition aliquot_of (rels : list Relation) (object : odict) : PfbRecord :=
  {| rec_name := "aliquot"; rec_object := object; rec_relations := rels |}.

Definition sample_S1 : Relation := {| dst_name := "sample"; dst_id := VStr "S1" |}.

(** [record] belongs to project [pid] and node [t]. *)
Definition seen (pid t : string) (record : PfbRecord) : bool :=
  match project_of record with
  | Ok p => String.eqb p pid && String.eqb (rec_name record) t
  | Err _ => false
  end.

Definition rows_written (done : list PfbRecord) (pid t : string) : nat :=
  List.length (filter (seen pid t) done).

(** The files of node [t] in the package of project [pid] are on the disk. *)
Definition files_present (outdir : path) (pid t : string) (d : Disk) : Prop :=
  dget path_eqb (data_path (outdir / lower pid) t) d = Some DataFile /\
  exists doc,
    dget path_eqb (schema_path (outdir / lower pid / "data") t) d
    = Some (JsonFile doc).

(** Node [t] of project [pid] has its files and its writer, which was opened
    on the data file with the field names of the node's schema and has
    written the header and then [n] rows. *)
Definition provisioned (schemas : list (string * odict)) (outdir : path)
  (pid t : string) (n : nat) (st : state) : Prop :=
  files_present outdir pid t (disk st) /\
  exists w schema rows,
    dget pair_eqb (pid, t) (writers st) = Some w /\
    w_path w = data_path (outdir / lower pid) t /\
    dget String.eqb t schemas = Some schema /\
    schema_fieldnames schema = Ok (w_fieldnames w) /\
    w_rows w = map VStr (w_fieldnames w) :: rows /\
    List.length rows = n.

(** What holds between two turns of the loop of [_write_tables], after the
    records [done]: their projects are in [pkgs], every node of every project
    in [pkgs] is provisioned and has received the rows of its records, and
    every package directory is the lower-cased project id under [outdir]. *)
Definition tables_invariant (schemas : list (string * odict)) (outdir : path)
  (done : list PfbRecord) (pkgs : list (string * path)) (st : state) : Prop :=
  (forall r pid, In r done -> project_of r = Ok pid -> In pid (dkeys pkgs)) /\
  (forall pid t, In pid (dkeys pkgs) -> In t (dkeys schemas) ->
                 provisioned schemas outdir pid t (rows_written done pid t) st) /\
  (forall pid p, In (pid, p) pkgs -> p = outdir / lower pid).

(** The scenario of the spec: one node [subject] with a string field
    [submitter_id] and a long field [age], no links, and one record of
    project [proj1]. *)
Definition subject_meta : NodeMetadata :=
  {| nm_name := "subject"; nm_ontology_reference := ""; nm_values := [];
     nm_links := []; nm_properties := [] |}.

Definition subject_A1 : PfbRecord :=
  {| rec_name := "subject";
     rec_object := [("project_id", VStr "proj1"); ("submitter_id", VStr "A1");
                    ("age", VInt 30)];
     rec_relations := [] |}.

Definition scenario_reader : Reader :=
  {| metadata_nodes := [subject_meta];
     schema := [subject_node];
     records := [subject_A1] |}.

(** The same scenario with [project_id] declared among the node's fields. *)
Definition project_id_field : SourceField :=
  {| field_name := "project_id"; field_type := [TScalar "string"] |}.

Definition declared_reader : Reader :=
  {| metadata_nodes := [subject_meta];
     schema := [ {| ns_name := "subject";
                    ns_fields := [submitter_id_field; age_field;
                                  project_id_field] |} ];
     records := [subject_A1] |}.

(** The reading of the spec in which the run fails in exactly two cases: a
    node of the schema listing without metadata, or a record whose node is
    not in the catalog. *)
Definition fails_exactly_on_configuration_errors : Prop :=
  forall (reader : Reader) (output : path) (d : Disk),
    (exists e st, frictionless reader output d = (Err e, st)) <->
    ((exists node, In node (schema reader) /\
                   ~ In (ns_name node) (map nm_name (metadata_nodes reader))) \/
     (exists schemas r, _get_schemas reader = Ok schemas /\
                        In r (records reader) /\
                        dget String.eqb (rec_name r) schemas = None)).

(** A schema listing whose node has no metadata entry. *)
Definition orphan_reader : Reader :=
  {| metadata_nodes := []; schema := [subject_node]; records := [subject_A1] |}.

(** The declared scenario with the node named [Subject]. *)
Definition uppercase_reader : Reader :=
  {| metadata_nodes :=
       [ {| nm_name := "Subject"; nm_ontology_reference := ""; nm_values := [];
            nm_links := []; nm_properties := [] |} ];
     schema := [ {| ns_name := "Subject";
                    ns_fields := [submitter_id_field; age_field;
                                  project_id_field] |} ];
     records := [ {| rec_name := "Subject";
                     rec_object := rec_object subject_A1;
                     rec_relations := [] |} ] |}.

(** Two pieces of text with a tab between them. *)
Definition tab_sep (a b : string) : string := (a ++ String tab b)%string.

(** The table schema the scenario of the spec expects for [subject]. *)
Definition subject_table_schema : value :=
  VDict [("fields",
          VList [VDict [("name", VStr "submitter_id"); ("type", VStr "string")];
                 VDict [("name", VStr "age"); ("type", VStr "integer")]]);
         ("primaryKey", VStr "submitter_id")].

(** The outcome the spec gives for its scenario. *)
Definition scenario_as_specified : Prop :=
  exists pkgs st resource,
    frictionless scenario_reader ["out"] [] = (Ok pkgs, st) /\
    tsv_lines ["out"; "proj1"; "data"; "subject.tsv"] st
    = Some [tab_sep "submitter_id" "age"; tab_sep "A1" "30"] /\
    dget path_eqb ["out"; "proj1"; "data"; "subject.json"] (disk st)
    = Some (JsonFile subject_table_schema) /\
    dget path_eqb ["out"; "proj1"; "datapackage.json"] (disk st)
    = Some (JsonFile (VDict [("name", VStr "proj1");
                             ("resources", VList [resource])])) /\
    getitem resource "name" = Ok (VStr "subject").

Fixpoint has_slash (s : string) : bool :=
  match s with
  | EmptyString => false
  | String c s' => Ascii.eqb c "/"%char || has_slash s'
  end.

(** A record of a node that is not in the catalog. *)
Definition stray_record : PfbRecord :=
  {| rec_name := "sample"; rec_object := [("project_id", VStr "proj1")];
     rec_relations := [] |}.

Definition stray_reader : Reader :=
  {| metadata_nodes := [subject_meta]; schema := [subject_node];
     records := [stray_record] |}.

(** A field whose alternatives are Avro type names that the type map does
    not hold. *)
Definition count_field : SourceField :=
  {| field_name := "count";
     field_type := [TScalar "null"; TScalar "int"; TScalar "double"] |}.

(** Metadata of [age] with an ontology reference. *)
Definition age_meta_ref : FieldMeta :=
  {| fm_name := "age"; fm_ontology_reference := "NCIT:C25150";
     fm_values := [("unit", "years")] |}.


(** [row] is the row of record [r] under the field names [names]: the
    cells of its object, foreign keys resolved, in the order of [names]. *)
Definition row_of (names : list string) (schema : odict) (r : PfbRecord)
  (row : list value) : Prop :=
  exists dict, resolve_foreign_keys r schema = Ok dict /\
               row = dict_to_list names dict.

(** The writer of node [t] of project [pid] has the field names of the
    node's schema and has written the header and then the rows of the
    records of [done] that belong to it, in their order. *)
Definition logged (schemas : list (string * odict)) (pid t : string)
  (done : list PfbRecord) (ws : list ((string * string) * DictWriter)) : Prop :=
  exists w schema rows,
    dget pair_eqb (pid, t) ws = Some w /\
    dget String.eqb t schemas = Some schema /\
    schema_fieldnames schema = Ok (w_fieldnames w) /\
    w_rows w = map VStr (w_fieldnames w) :: rows /\
    Forall2 (row_of (w_fieldnames w) schema) (filter (seen pid t) done) rows.

(** Two records of one project and node, between them one of another
    node of that project. *)
Definition subject_A2 : PfbRecord :=
  {| rec_name := "subject";
     rec_object := [("project_id", VStr "proj1"); ("submitter_id", VStr "A2");
                    ("age", VInt 41)];
     rec_relations := [] |}.

Definition two_subjects_reader : Reader :=
  {| metadata_nodes := metadata_nodes declared_reader;
     schema := schema declared_reader;
     records := [subject_A1; subject_A2] |}.

(** A catalog with one node whose schema has three named fields. *)
Definition plain_catalog : list (string * odict) :=
  [("subject",
    [("fields", VList [VDict [("name", VStr "submitter_id")];
                       VDict [("name", VStr "age")];
                       VDict [("name", VStr "project_id")]])])].


(** A record of a project whose id differs from [proj1] in case only. *)
Definition subject_B1 : PfbRecord :=
  {| rec_name := "subject";
     rec_object := [("project_id", VStr "Proj1"); ("submitter_id", VStr "B1");
                    ("age", VInt 52)];
     rec_relations := [] |}.

(** Two metadata entries and two listed nodes of one name. *)
Definition subject_meta_later : NodeMetadata :=
  {| nm_name := "subject"; nm_ontology_reference := "NCIT:C41189";
     nm_values := []; nm_links := []; nm_properties := [] |}.

Definition subject_node_short : NodeSchema :=
  {| ns_name := "subject"; ns_fields := [age_field] |}.

Definition twice_reader : Reader :=
  {| metadata_nodes := [subject_meta; subject_meta_later];
     schema := [subject_node_short; subject_node];
     records := [] |}.

(** * Properties *)

(** ** Dictionaries *)

Section DictFacts.
Variables (K V : Type) (eqb : K -> K -> bool).
Hypothesis eqb_eq : forall a b, eqb a b = true <-> a = b.

Lemma eqb_same (a : K) : eqb a a = true.
Proof. now apply eqb_eq. Qed.

Lemma eqb_diff (a b : K) : a <> b -> eqb a b = false.
Proof.
  intros H. destruct (eqb a b) eqn:E; [|reflexivity].
  apply eqb_eq in E. contradiction.
Qed.

Lemma dget_dset_same (k : K) (v : V) (d : list (K * V)) :
  dget eqb k (dset eqb k v d) = Some v.
Proof.
  induction d as [|[k' v'] d IH]; simpl.
  - now rewrite eqb_same.
  - destruct (eqb k k') eqn:E; simpl; rewrite E; [reflexivity|exact IH].
Qed.

Lemma dget_dset_other (k k' : K) (v : V) (d : list (K * V)) :
  k' <> k -> dget eqb k' (dset eqb k v d) = dget eqb k' d.
Proof.
  intros Hne. induction d as [|[k0 v0] d IH]; simpl.
  - now rewrite (eqb_diff Hne).
  - destruct (eqb k k0) eqn:E; simpl.
    + apply eqb_eq in E. subst k0. now rewrite (eqb_diff Hne).
    + destruct (eqb k' k0); [reflexivity|exact IH].
Qed.

Lemma dkeys_dset (k k' : K) (v : V) (d : list (K * V)) :
  In k' (dkeys (dset eqb k v d)) <-> k' = k \/ In k' (dkeys d).
Proof.
  induction d as [|[k0 v0] d IH]; simpl.
  - intuition congruence.
  - destruct (eqb k k0) eqn:E; simpl.
    + apply eqb_eq in E. subst k0. intuition congruence.
    + rewrite IH. intuition congruence.
Qed.

Lemma dget_None (k : K) (d : list (K * V)) :
  dget eqb k d = None <-> ~ In k (dkeys d).
Proof.
  induction d as [|[k0 v0] d IH]; simpl.
  - intuition.
  - destruct (eqb k k0) eqn:E.
    + apply eqb_eq in E. subst k0. split; [discriminate|intuition].
    + rewrite IH. split.
      * intros H [H1|H1]; [subst k0; rewrite eqb_same in E; discriminate|auto].
      * intuition.
Qed.

Lemma dget_Some_In (k : K) (v : V) (d : list (K * V)) :
  dget eqb k d = Some v -> In k (dkeys d).
Proof.
  induction d as [|[k0 v0] d IH]; simpl; [discriminate|].
  destruct (eqb k k0) eqn:E.
  - apply eqb_eq in E. auto.
  - auto.
Qed.

Lemma dget_In (k : K) (d : list (K * V)) :
  In k (dkeys d) -> exists v, dget eqb k d = Some v.
Proof.
  intros H. destruct (dget eqb k d) eqn:E; [eauto|].
  apply dget_None in E. contradiction.
Qed.

Lemma dget_dupdate_other (k : K) (d src : list (K * V)) :
  ~ In k (dkeys src) -> dget eqb k (dupdate eqb d src) = dget eqb k d.
Proof.
  unfold dupdate. revert d.
  induction src as [|[k0 v0] src IH]; simpl; intros d H; [reflexivity|].
  rewrite IH by tauto. apply dget_dset_other. intros ->. tauto.
Qed.

Lemma dget_dupdate_last (k : K) (v : V) (d pre post : list (K * V)) :
  ~ In k (dkeys post) ->
  dget eqb k (dupdate eqb d (pre ++ (k, v) :: post)) = Some v.
Proof.
  intros H. unfold dupdate. rewrite fold_left_app. simpl.
  fold (dupdate eqb (dset eqb k v (fold_left
    (fun acc kv => dset eqb (fst kv) (snd kv) acc) pre d)) post).
  rewrite dget_dupdate_other by exact H. apply dget_dset_same.
Qed.

End DictFacts.

Lemma sget_sset_same (k : string) (v : value) (d : odict) :
  sget k (sset k v d) = Some v.
Proof. apply dget_dset_same, String.eqb_eq. Qed.

Lemma sget_sset_other (k k' : string) (v : value) (d : odict) :
  k' <> k -> sget k' (sset k v d) = sget k' d.
Proof. apply dget_dset_other, String.eqb_eq. Qed.

(** ** Loops that may raise *)

Lemma foldM_app {A B : Type} (f : B -> A -> result B) (l1 l2 : list A) (acc : B) :
  foldM f (l1 ++ l2) acc = bind (foldM f l1 acc) (foldM f l2).
Proof.
  revert acc. induction l1 as [|x l1 IH]; simpl; intros acc; [reflexivity|].
  destruct (f acc x); simpl; [apply IH|reflexivity].
Qed.

Lemma foldM_split {A B : Type} (f : B -> A -> result B) (pre post : list A)
  (x : A) (acc r : B) :
  foldM f (pre ++ x :: post) acc = Ok r ->
  exists b1 b2, foldM f pre acc = Ok b1 /\ f b1 x = Ok b2 /\
                foldM f post b2 = Ok r.
Proof.
  rewrite foldM_app. destruct (foldM f pre acc) as [b1|e]; simpl; [|discriminate].
  destruct (f b1 x) as [b2|e] eqn:E; simpl; [|discriminate].
  intros H. exists b1, b2. auto.
Qed.

(** ** The type of a field descriptor *)

Lemma add_type_step_ignored (d : odict) (u : TypeTag) :
  is_mapped_scalar u = false -> is_enum_tag u = false ->
  add_type_step d u = Ok d.
Proof.
  destruct u as [s|c]; cbn [is_mapped_scalar is_enum_tag add_type_step];
    intros Hs He.
  - unfold dmem in Hs. destruct (dget String.eqb s type_map); [discriminate|reflexivity].
  - now rewrite He.
Qed.

Lemma add_type_ignored (post : list TypeTag) (d : odict) :
  (forall u, In u post -> is_mapped_scalar u = false /\ is_enum_tag u = false) ->
  foldM add_type_step post d = Ok d.
Proof.
  induction post as [|u post IH]; simpl; intros H; [reflexivity|].
  destruct (H u (or_introl eq_refl)) as [Hs He].
  rewrite add_type_step_ignored by assumption. simpl. apply IH. auto.
Qed.

Lemma add_type_step_enum (d : odict) (t : TypeTag) (symbols : value) :
  enum_alternative t symbols ->
  add_type_step d t =
  Ok (sset "constraints" (VDict [("enum", symbols)])
        (sset "type" (VStr "string") d)).
Proof.
  intros (c & -> & Ht & Hs). cbn [add_type_step].
  rewrite Ht, Hs. reflexivity.
Qed.

Lemma add_type_step_keeps (k : string) (d d' : odict) (u : TypeTag) :
  k <> "type" -> (k <> "constraints" \/ is_enum_tag u = false) ->
  add_type_step d u = Ok d' -> sget k d' = sget k d.
Proof.
  intros Ht Hc. destruct u as [s|c]; cbn [add_type_step].
  - destruct (dget String.eqb s type_map); intros [= <-];
      [now apply sget_sset_other|reflexivity].
  - destruct (value_is_str (sget "type" c) "enum") eqn:E.
    + destruct Hc as [Hc|Hc]; [|cbn [is_enum_tag] in Hc; congruence].
      destruct (sget "symbols" c); [|discriminate]. intros [= <-].
      rewrite sget_sset_other by exact Hc. now apply sget_sset_other.
    + now intros [= <-].
Qed.

Lemma add_type_keeps (k : string) (types : list TypeTag) (d d' : odict) :
  k <> "type" ->
  (k <> "constraints" \/ forall u, In u types -> is_enum_tag u = false) ->
  foldM add_type_step types d = Ok d' -> sget k d' = sget k d.
Proof.
  intros Ht. revert d. induction types as [|u types IH]; simpl; intros d Hc.
  - now intros [= <-].
  - destruct (add_type_step d u) as [d1|e] eqn:E; simpl; [|discriminate].
    intros H. rewrite (IH d1); [|intuition|exact H].
    apply add_type_step_keeps with (u := u); [exact Ht|intuition|exact E].
Qed.

Lemma add_type_total (types : list TypeTag) (d0 : odict) :
  enums_have_symbols types -> exists d, foldM add_type_step types d0 = Ok d.
Proof.
  revert d0. induction types as [|u types IH]; simpl; intros d0 H; [eauto|].
  assert (Hstep : exists d1, add_type_step d0 u = Ok d1).
  { destruct (is_enum_tag u) eqn:E.
    - destruct (H u (or_introl eq_refl) E) as [symbols Hs].
      rewrite add_type_step_enum with (symbols := symbols) by exact Hs. eauto.
    - destruct u as [s|c]; cbn [add_type_step is_enum_tag] in *.
      + destruct (dget String.eqb s type_map); eauto.
      + rewrite E. eauto. }
  destruct Hstep as [d1 ->]. simpl. apply IH.
  intros t Ht. apply H. now right.
Qed.

(** C1, as the spec words it, fails: an enum followed by [long] yields
    [type = integer], because a mapped type name that comes after the enum
    overwrites the [string] the enum had set. *)
Lemma enum_then_long_is_integer :
  In enum_ab (field_type enum_then_long) /\
  enum_alternative enum_ab (VList [VStr "a"; VStr "b"]) /\
  _add_type enum_then_long [("name", VStr "x")] =
    Ok [("name", VStr "x"); ("type", VStr "integer");
        ("constraints", VDict [("enum", VList [VStr "a"; VStr "b"])])] /\
  ~ enum_always_wins.
Proof.
  assert (Hin : In enum_ab (field_type enum_then_long)) by (simpl; auto).
  assert (He : enum_alternative enum_ab (VList [VStr "a"; VStr "b"])).
  { exists [("type", VStr "enum"); ("name", VStr "letter");
            ("symbols", VList [VStr "a"; VStr "b"])]. repeat split. }
  repeat split; try assumption.
  intros H.
  destruct (H enum_then_long [("name", VStr "x")] _ _ _ Hin He eq_refl) as [Ht _].
  discriminate Ht.
Qed.

(** C1 (amended): each of [string], [float], [long], [boolean] yields
    [string], [number], [integer], [boolean]; the descriptor's type is set by
    the last alternative that is an enum or one of those four names, so an
    enum yields [type = string] when no such name follows it;
    [constraints.enum] is the symbol list of the last enum alternative
    whatever follows it.  The builder returns whenever every enum dict has
    its symbols. *)
Theorem add_type_last_alternative_wins (field : SourceField) (d0 : odict) :
  enums_have_symbols (field_type field) ->
  exists d, _add_type field d0 = Ok d /\
    (forall pre s post m,
        field_type field = pre ++ TScalar s :: post ->
        In (s, m) [("string", "string"); ("float", "number");
                   ("long", "integer"); ("boolean", "boolean")] ->
        (forall u, In u post ->
                   is_mapped_scalar u = false /\ is_enum_tag u = false) ->
        sget "type" d = Some (VStr m)) /\
    (forall pre t post symbols,
        field_type field = pre ++ t :: post ->
        enum_alternative t symbols ->
        (forall u, In u post ->
                   is_mapped_scalar u = false /\ is_enum_tag u = false) ->
        sget "type" d = Some (VStr "string")) /\
    (forall pre t post symbols,
        field_type field = pre ++ t :: post ->
        enum_alternative t symbols ->
        (forall u, In u post -> is_enum_tag u = false) ->
        sget "constraints" d = Some (VDict [("enum", symbols)])).
Proof.
  intros Hwf. destruct (add_type_total d0 Hwf) as [d Hd].
  exists d. unfold _add_type. split; [exact Hd|].
  split; [|split].
  - intros pre s post m Hty Hm Hpost. rewrite Hty in Hd.
    apply foldM_split in Hd. destruct Hd as (b1 & b2 & _ & Hstep & Hrest).
    rewrite add_type_ignored in Hrest by exact Hpost. injection Hrest as <-.
    cbn [add_type_step] in Hstep.
    assert (Hg : dget String.eqb s type_map = Some m).
    { simpl in Hm.
      destruct Hm as [[= <- <-]|[[= <- <-]|[[= <- <-]|[[= <- <-]|[]]]]];
        reflexivity. }
    rewrite Hg in Hstep. injection Hstep as <-. apply sget_sset_same.
  - intros pre t post symbols Hty He Hpost. rewrite Hty in Hd.
    apply foldM_split in Hd. destruct Hd as (b1 & b2 & _ & Hstep & Hrest).
    rewrite add_type_ignored in Hrest by exact Hpost. injection Hrest as <-.
    rewrite add_type_step_enum with (symbols := symbols) in Hstep by exact He.
    injection Hstep as <-.
    rewrite sget_sset_other by discriminate. apply sget_sset_same.
  - intros pre t post symbols Hty He Hpost. rewrite Hty in Hd.
    apply foldM_split in Hd. destruct Hd as (b1 & b2 & _ & Hstep & Hrest).
    rewrite add_type_keeps with (types := post) (d := b2);
      [|discriminate|now right|exact Hrest].
    rewrite add_type_step_enum with (symbols := symbols) in Hstep by exact He.
    injection Hstep as <-.
    apply sget_sset_same.
Qed.

Lemma enum_ab_alternative :
  enum_alternative enum_ab (VList [VStr "a"; VStr "b"]).
Proof.
  exists [("type", VStr "enum"); ("name", VStr "letter");
          ("symbols", VList [VStr "a"; VStr "b"])].
  repeat split.
Qed.

Lemma add_type_last_alternative_wins_witness :
  enums_have_symbols (field_type enum_then_long) /\
  exists d, _add_type enum_then_long [("name", VStr "x")] = Ok d /\
            sget "type" d = Some (VStr "integer") /\
            sget "constraints" d
            = Some (VDict [("enum", VList [VStr "a"; VStr "b"])]).
Proof.
  assert (H : enums_have_symbols (field_type enum_then_long)).
  { intros t [<-|[<-|[]]] E; [|discriminate E].
    exists (VList [VStr "a"; VStr "b"]). exact enum_ab_alternative. }
  split; [exact H|].
  destruct (add_type_last_alternative_wins enum_then_long
              [("name", VStr "x")] H) as (d & Hd & H1 & _ & H3).
  exists d. split; [exact Hd|]. split.
  - apply (H1 [enum_ab] "long" [] "integer"); simpl; auto.
    intros u [].
  - apply (H3 [] enum_ab [TScalar "long"] (VList [VStr "a"; VStr "b"]));
      [reflexivity|exact enum_ab_alternative|].
    intros u [<-|[]]. reflexivity.
Defined.

(** ** Merging field metadata *)

Lemma dkeys_values_dict (vs : list (string * string)) :
  dkeys (values_dict vs) = map fst vs.
Proof. unfold dkeys, values_dict. rewrite map_map. reflexivity. Qed.

Lemma spread_values (d : odict) (vs : list (string * string)) :
  match vs with
  | [] => d
  | _ :: _ => supdate d (values_dict vs)
  end = supdate d (values_dict vs).
Proof. destruct vs; reflexivity. Qed.

Lemma sget_supdate_other (k : string) (d : odict) (vs : list (string * string)) :
  ~ In k (map fst vs) -> sget k (supdate d (values_dict vs)) = sget k d.
Proof.
  intros H. unfold sget, supdate. apply dget_dupdate_other.
  - apply String.eqb_eq.
  - now rewrite dkeys_values_dict.
Qed.

Lemma sget_supdate_last (k v : string) (d : odict)
  (pre post : list (string * string)) :
  ~ In k (map fst post) ->
  sget k (supdate d (values_dict (pre ++ (k, v) :: post))) = Some (VStr v).
Proof.
  intros H. unfold sget, supdate, values_dict. rewrite map_app. simpl.
  apply dget_dupdate_last.
  - apply String.eqb_eq.
  - fold (values_dict post). now rewrite dkeys_values_dict.
Qed.

Lemma add_type_name (field : SourceField) (d0 : odict) :
  _add_type field [("name", VStr (field_name field))] = Ok d0 ->
  sget "name" d0 = Some (VStr (field_name field)).
Proof.
  intros H. unfold _add_type in H.
  rewrite add_type_keeps with (types := field_type field)
                              (d := [("name", VStr (field_name field))]);
    [reflexivity|discriminate|left; discriminate|exact H].
Qed.

Lemma merge_meta_matching (meta : FieldMeta) (d0 : odict) :
  sget "name" d0 = Some (VStr (fm_name meta)) ->
  merge_meta meta d0 =
  supdate (if String.eqb (fm_ontology_reference meta) "" then d0
           else sset "ontology_reference"
                  (VStr (fm_ontology_reference meta)) d0)
          (values_dict (fm_values meta)).
Proof.
  intros H. unfold merge_meta. rewrite H. simpl.
  rewrite String.eqb_refl. apply spread_values.
Qed.

(** C3, as the spec words it, fails: an annotation whose key is [type]
    replaces the type that [_add_type] had set. *)
Lemma annotation_named_type_overrides :
  fm_name age_meta = field_name age_field /\
  _add_type age_field [("name", VStr "age")]
  = Ok [("name", VStr "age"); ("type", VStr "integer")] /\
  _field_descriptor age_field (Some age_meta)
  = Ok [("name", VStr "age"); ("type", VStr "date")] /\
  ~ meta_never_overrides.
Proof.
  repeat split.
  intros H.
  destruct (H age_field age_meta _ _ eq_refl eq_refl eq_refl) as [_ Ht].
  discriminate Ht.
Qed.

(** C3 (amended): merging a matching metadata entry leaves the descriptor's
    [name] unchanged unless the extra annotations have a key [name], and its
    [type] unchanged unless they have a key [type]; an annotation with such
    a key replaces the entry, as every annotation sets the entry of its
    key. *)
Theorem field_descriptor_meta_frame (field : SourceField) (meta : FieldMeta)
  (d0 : odict) :
  fm_name meta = field_name field ->
  _add_type field [("name", VStr (field_name field))] = Ok d0 ->
  exists d, _field_descriptor field (Some meta) = Ok d /\
    (~ In "name" (map fst (fm_values meta)) ->
     sget "name" d = Some (VStr (field_name field)) /\
     sget "name" d = sget "name" d0) /\
    (~ In "type" (map fst (fm_values meta)) ->
     sget "type" d = sget "type" d0) /\
    (forall k v pre post,
        fm_values meta = pre ++ (k, v) :: post ->
        ~ In k (map fst post) ->
        sget k d = Some (VStr v)).
Proof.
  intros Hname Hd0. pose proof (add_type_name field Hd0) as Hn.
  unfold _field_descriptor. rewrite Hd0. cbn [bind].
  eexists. split; [reflexivity|].
  rewrite merge_meta_matching by (now rewrite Hname).
  split; [|split].
  - intros Hk. rewrite sget_supdate_other by exact Hk.
    destruct (String.eqb (fm_ontology_reference meta) "");
      [|rewrite sget_sset_other by discriminate]; auto.
  - intros Hk. rewrite sget_supdate_other by exact Hk.
    destruct (String.eqb (fm_ontology_reference meta) "");
      [|rewrite sget_sset_other by discriminate]; auto.
  - intros k v pre post Hv Hk. rewrite Hv. now apply sget_supdate_last.
Qed.

Lemma field_descriptor_meta_frame_witness :
  fm_name age_meta = field_name age_field /\
  _add_type age_field [("name", VStr (field_name age_field))]
  = Ok [("name", VStr "age"); ("type", VStr "integer")] /\
  exists d, _field_descriptor age_field (Some age_meta) = Ok d /\
            sget "name" d = Some (VStr "age") /\
            sget "type" d = Some (VStr "date").
Proof.
  split; [reflexivity|]. split; [reflexivity|].
  destruct (field_descriptor_meta_frame age_field age_meta
              (d0 := [("name", VStr "age"); ("type", VStr "integer")])
              eq_refl eq_refl) as (d & Hd & H1 & _ & H3).
  exists d. split; [exact Hd|]. split.
  - apply H1. simpl. intros [H|[]]. discriminate H.
  - apply (H3 "type" "date" [] []); [reflexivity|]. intros [].
Defined.

(** ** Foreign keys from links *)

Lemma add_foreign_key_step_ok (l : Link) (fks : list value) (s : odict)
  (fs : list value) :
  sget "fields" s = Some (VList fs) ->
  add_foreign_key_step (fks, s) l
  = Ok (fks ++ [foreign_key l],
        sset "fields" (VList (fs ++ [VDict [("name", VStr (link_name l))]])) s).
Proof.
  intros Hf. unfold add_foreign_key_step, fields_append. cbn [fst snd].
  rewrite Hf. reflexivity.
Qed.

Lemma add_foreign_keys_loop (links : list Link) (fks : list value)
  (s : odict) (fs : list value) :
  sget "fields" s = Some (VList fs) ->
  exists s',
    foldM add_foreign_key_step links (fks, s)
    = Ok (fks ++ map foreign_key links, s') /\
    sget "fields" s'
    = Some (VList (fs ++ map (fun l => VDict [("name", VStr (link_name l))])
                            links)) /\
    forall k, k <> "fields" -> sget k s' = sget k s.
Proof.
  revert fks s fs. induction links as [|l links IH]; intros fks s fs Hf.
  - exists s. simpl. rewrite !app_nil_r. auto.
  - cbn [foldM]. rewrite (add_foreign_key_step_ok l fks s Hf). cbn [bind].
    destruct (IH (fks ++ [foreign_key l])
                 (sset "fields"
                    (VList (fs ++ [VDict [("name", VStr (link_name l))]])) s)
                 (fs ++ [VDict [("name", VStr (link_name l))]]))
      as (s' & Hrun & Hfields & Hframe).
    { apply sget_sset_same. }
    exists s'. rewrite Hrun. cbn [map]. rewrite <- !app_assoc. cbn [app].
    split; [reflexivity|]. split; [rewrite Hfields; now rewrite <- app_assoc|].
    intros k Hk. rewrite Hframe by exact Hk. now apply sget_sset_other.
Qed.

(** ** The primary key *)

Lemma value_is_str_true (v : option value) (s : string) :
  value_is_str v s = true <-> v = Some (VStr s).
Proof.
  destruct v as [[| | |s'| |]|]; simpl; try (split; [discriminate|congruence]).
  rewrite String.eqb_eq. split; congruence.
Qed.

Lemma mapM_Forall2 {A B : Type} (f : A -> result B) (l : list A) (ys : list B) :
  mapM f l = Ok ys -> Forall2 (fun x y => f x = Ok y) l ys.
Proof.
  revert ys. induction l as [|x l IH]; simpl; intros ys.
  - intros [= <-]. constructor.
  - destruct (f x) as [y|e] eqn:E; simpl; [|discriminate].
    destruct (mapM f l) as [ys'|e]; simpl; [|discriminate].
    intros [= <-]. constructor; auto.
Qed.

Lemma mapM_total {A B : Type} (f : A -> result B) (l : list A) :
  (forall x, In x l -> exists y, f x = Ok y) -> exists ys, mapM f l = Ok ys.
Proof.
  induction l as [|x l IH]; simpl; intros H; [eauto|].
  destruct (H x (or_introl eq_refl)) as [y ->]. simpl.
  destruct IH as [ys ->]; [auto|]. simpl. eauto.
Qed.

Lemma index_by_name_get {A : Type} (name : A -> string) (l : list A)
  (k : string) (x : A) :
  dget String.eqb k (index_by_name name l) = Some x -> In x l /\ name x = k.
Proof.
  unfold index_by_name.
  assert (G : forall (d : list (string * A)),
             (forall k x, dget String.eqb k d = Some x -> In x l /\ name x = k) ->
             forall l', incl l' l ->
             forall k x,
               dget String.eqb k
                 (fold_left (fun d x => dset String.eqb (name x) x d) l' d)
               = Some x -> In x l /\ name x = k).
  { intros d Hd l'. revert d Hd.
    induction l' as [|y l' IH]; simpl; intros d Hd Hincl; [exact Hd|].
    apply IH.
    - intros k0 x0. destruct (string_dec k0 (name y)) as [->|Hne].
      + rewrite dget_dset_same by apply String.eqb_eq. intros [= <-].
        split; [apply Hincl; now left|reflexivity].
      + rewrite dget_dset_other by (apply String.eqb_eq || exact Hne).
        apply Hd.
    - intros z Hz. apply Hincl. now right. }
  apply (G [] (fun k x H => ltac:(discriminate H)) l (incl_refl l)).
Qed.

Lemma index_by_name_None {A : Type} (name : A -> string) (l : list A)
  (k : string) :
  dget String.eqb k (index_by_name name l) = None <-> ~ In k (map name l).
Proof.
  unfold index_by_name.
  assert (G : forall l' (d : list (string * A)),
             dget String.eqb k
               (fold_left (fun d x => dset String.eqb (name x) x d) l' d) = None
             <-> dget String.eqb k d = None /\ ~ In k (map name l')).
  { induction l' as [|y l' IH]; simpl; intros d; [tauto|].
    rewrite IH. destruct (string_dec k (name y)) as [->|Hne].
    - rewrite dget_dset_same by apply String.eqb_eq.
      split; [intros [H _]; discriminate H|tauto].
    - rewrite dget_dset_other by (apply String.eqb_eq || exact Hne).
      split; [intros [H1 H2]; split; [exact H1|intros [H|H]; congruence]|tauto]. }
  rewrite G. simpl. tauto.
Qed.

Lemma merge_meta_keeps (k : string) (m : FieldMeta) (d : odict) :
  k <> "ontology_reference" -> ~ In k (map fst (fm_values m)) ->
  sget k (merge_meta m d) = sget k d.
Proof.
  intros Hk Hv. unfold merge_meta.
  destruct (value_is_str (sget "name" d) (fm_name m)); [|reflexivity].
  rewrite spread_values, sget_supdate_other by exact Hv.
  destruct (String.eqb (fm_ontology_reference m) ""); [reflexivity|].
  now apply sget_sset_other.
Qed.

Lemma field_descriptor_name (field : SourceField) (meta : option FieldMeta)
  (f : odict) :
  _field_descriptor field meta = Ok f ->
  (forall m, meta = Some m -> ~ In "name" (map fst (fm_values m))) ->
  sget "name" f = Some (VStr (field_name field)).
Proof.
  unfold _field_descriptor.
  destruct (_add_type field [("name", VStr (field_name field))])
    as [d0|e] eqn:E; cbn [bind]; [|discriminate].
  pose proof (add_type_name field E) as Hn.
  destruct meta as [m|]; intros [= <-] Hm; [|exact Hn].
  rewrite merge_meta_keeps; [exact Hn|discriminate|now apply Hm].
Qed.

Lemma field_descriptors_total (record : NodeSchema) (meta : NodeMetadata) :
  (forall field, In field (ns_fields record) ->
                 enums_have_symbols (field_type field)) ->
  exists fields, field_descriptors record meta = Ok fields.
Proof.
  intros H. apply mapM_total. intros field Hin. unfold _field_descriptor.
  destruct (add_type_total [("name", VStr (field_name field))] (H field Hin))
    as [d Hd].
  unfold _add_type. rewrite Hd. cbn [bind].
  destruct (dget String.eqb (field_name field)
              (index_by_name fm_name (nm_properties meta))); eauto.
Qed.

Lemma field_descriptors_names (record : NodeSchema) (meta : NodeMetadata)
  (fields : list odict) :
  field_descriptors record meta = Ok fields ->
  (forall p, In p (nm_properties meta) -> ~ In "name" (map fst (fm_values p))) ->
  Forall2 (fun field f => sget "name" f = Some (VStr (field_name field)))
          (ns_fields record) fields.
Proof.
  intros H Hp. apply mapM_Forall2 in H.
  induction H as [|field f l l' Hf _ IH]; constructor; [|exact IH].
  apply field_descriptor_name with (1 := Hf).
  intros m Hm. apply index_by_name_get in Hm. apply Hp, Hm.
Qed.

Lemma base_schema_fields (fields : list odict) :
  sget "fields" (base_schema fields) = Some (VList (map VDict fields)).
Proof.
  unfold base_schema.
  destruct (existsb _ fields); reflexivity.
Qed.

Lemma base_schema_primary_key (fields : list odict) :
  sget "primaryKey" (base_schema fields)
  = if existsb (fun f => value_is_str (sget "name" f) "submitter_id") fields
    then Some (VStr "submitter_id") else None.
Proof.
  unfold base_schema.
  destruct (existsb _ fields); reflexivity.
Qed.

Lemma add_foreign_keys_ok (s : odict) (fs : list value) (links : list Link) :
  sget "fields" s = Some (VList fs) ->
  exists s', _add_foreign_keys s links = Ok s' /\
    sget "fields" s'
    = Some (VList (fs ++ map (fun l => VDict [("name", VStr (link_name l))])
                            links)) /\
    sget "foreignKeys" s' = Some (VList (map foreign_key links)) /\
    forall k, k <> "fields" -> k <> "foreignKeys" -> sget k s' = sget k s.
Proof.
  intros Hf.
  destruct (add_foreign_keys_loop links [] s Hf) as (s' & Hrun & Hfields & Hframe).
  unfold _add_foreign_keys. rewrite Hrun. cbn [bind fst snd app].
  eexists. split; [reflexivity|]. split; [|split].
  - rewrite sget_sset_other by discriminate. exact Hfields.
  - apply sget_sset_same.
  - intros k Hk1 Hk2. rewrite sget_sset_other by exact Hk2. now apply Hframe.
Qed.

Lemma annotate_schema_keeps (k : string) (meta : NodeMetadata) (s : odict) :
  k <> "ontology_reference" -> ~ In k (map fst (nm_values meta)) ->
  sget k (annotate_schema meta s) = sget k s.
Proof.
  intros Hk Hv. unfold annotate_schema.
  rewrite spread_values, sget_supdate_other by exact Hv.
  destruct (String.eqb (nm_ontology_reference meta) ""); [reflexivity|].
  now apply sget_sset_other.
Qed.

(** The schema [_get_schema] builds from its field descriptors: the links'
    fields and foreign keys come after the base schema, the node-level
    annotations last. *)
Lemma get_schema_linked (record : NodeSchema) (meta : NodeMetadata)
  (fields : list odict) :
  field_descriptors record meta = Ok fields ->
  exists s1, _get_schema record meta = Ok (annotate_schema meta s1) /\
    sget "fields" s1
    = Some (VList (map VDict fields
                   ++ map (fun l => VDict [("name", VStr (link_name l))])
                          (nm_links meta))) /\
    sget "foreignKeys" s1
    = match nm_links meta with
      | [] => None
      | _ :: _ => Some (VList (map foreign_key (nm_links meta)))
      end /\
    sget "primaryKey" s1 = sget "primaryKey" (base_schema fields).
Proof.
  intros Hf. unfold _get_schema. rewrite Hf. cbn [bind].
  destruct (nm_links meta) as [|l links] eqn:El.
  - exists (base_schema fields). cbn [bind map]. rewrite app_nil_r.
    split; [reflexivity|]. split; [apply base_schema_fields|].
    split; [|reflexivity].
    unfold base_schema. destruct (existsb _ fields); reflexivity.
  - destruct (@add_foreign_keys_ok (base_schema fields) _ (l :: links)
                (base_schema_fields fields))
      as (s1 & Hrun & H1 & H2 & H3).
    exists s1. rewrite Hrun. cbn [bind].
    split; [reflexivity|]. split; [exact H1|]. split; [exact H2|].
    apply H3; discriminate.
Qed.



Lemma submitter_id_descriptor_dec (fields : list odict) :
  existsb (fun f => value_is_str (sget "name" f) "submitter_id") fields = true
  <-> exists f, In f fields /\ sget "name" f = Some (VStr "submitter_id").
Proof.
  rewrite existsb_exists. split; intros (f & Hin & Hf); exists f;
    (split; [exact Hin|now apply value_is_str_true]).
Qed.

Lemma named_descriptor_iff (n : string) (l : list SourceField)
  (fields : list odict) :
  Forall2 (fun field f => sget "name" f = Some (VStr (field_name field)))
          l fields ->
  (exists f, In f fields /\ sget "name" f = Some (VStr n))
  <-> In n (map field_name l).
Proof.
  induction 1 as [|field f l l' Hn _ IH]; simpl.
  - split; [intros (f & [] & _)|intros []].
  - split.
    + intros (g & [<-|Hin] & Hg).
      * left. rewrite Hn in Hg. now injection Hg.
      * right. apply IH. eauto.
    + intros [Heq|Hin].
      * exists f. split; [now left|]. now rewrite Hn, Heq.
      * apply IH in Hin. destruct Hin as (g & Hin & Hg). eauto.
Qed.

(** C8, as the spec words it, fails at two inputs: node annotations with a
    key [primaryKey] replace the key the builder had set, and a link named
    [submitter_id] adds a field of that name after the primary key was
    decided. *)
Lemma primary_key_not_iff_field :
  (exists s names,
      _get_schema subject_node subject_meta_keyed = Ok s /\
      schema_fieldnames s = Ok names /\ In "submitter_id" names /\
      sget "primaryKey" s = Some (VStr "id")) /\
  (exists s names,
      _get_schema visit_node visit_meta_linked = Ok s /\
      schema_fieldnames s = Ok names /\ In "submitter_id" names /\
      sget "primaryKey" s = None) /\
  ~ primary_key_iff_field.
Proof.
  split; [|split].
  - eexists. eexists. split; [reflexivity|]. split; [reflexivity|].
    split; [simpl; auto|reflexivity].
  - eexists. eexists. split; [reflexivity|]. split; [reflexivity|].
    split; [simpl; auto|reflexivity].
  - intros H.
    destruct (H visit_node visit_meta_linked _ ["age"; "submitter_id"]
                eq_refl eq_refl) as [_ Hback].
    discriminate Hback. simpl. auto.
Qed.

(** C8 (amended): when the node's annotations have no key [primaryKey], the
    built schema has [primaryKey = submitter_id] if and only if one of the
    descriptors built from the node's declared fields is named
    [submitter_id], and has no [primaryKey] otherwise; fields appended for
    links do not count.  When no field annotation has a key [name], the
    descriptors are named as the declared fields are. *)
Theorem get_schema_primary_key (record : NodeSchema) (meta : NodeMetadata)
  (fields : list odict) :
  field_descriptors record meta = Ok fields ->
  ~ In "primaryKey" (map fst (nm_values meta)) ->
  exists s, _get_schema record meta = Ok s /\
    (sget "primaryKey" s = Some (VStr "submitter_id")
     <-> exists f, In f fields /\ sget "name" f = Some (VStr "submitter_id")) /\
    (sget "primaryKey" s = None
     <-> ~ exists f, In f fields /\ sget "name" f = Some (VStr "submitter_id")) /\
    ((forall p, In p (nm_properties meta) ->
                ~ In "name" (map fst (fm_values p))) ->
     ((exists f, In f fields /\ sget "name" f = Some (VStr "submitter_id"))
      <-> In "submitter_id" (map field_name (ns_fields record)))).
Proof.
  intros Hf Hv.
  destruct (get_schema_linked record meta Hf) as (s1 & Hrun & _ & _ & Hpk).
  exists (annotate_schema meta s1). split; [exact Hrun|].
  rewrite annotate_schema_keeps by (discriminate || exact Hv).
  rewrite Hpk, base_schema_primary_key.
  rewrite <- submitter_id_descriptor_dec.
  split; [|split].
  - destruct (existsb _ fields); split; congruence.
  - destruct (existsb _ fields); split; congruence.
  - intros Hp. rewrite submitter_id_descriptor_dec.
    apply named_descriptor_iff.
    exact (field_descriptors_names record meta Hf Hp).
Qed.

Lemma get_schema_primary_key_witness :
  field_descriptors subject_node
    {| nm_name := "subject"; nm_ontology_reference := ""; nm_values := [];
       nm_links := []; nm_properties := [] |}
  = Ok [[("name", VStr "submitter_id"); ("type", VStr "string")];
        [("name", VStr "age"); ("type", VStr "integer")]] /\
  exists s,
    _get_schema subject_node
      {| nm_name := "subject"; nm_ontology_reference := ""; nm_values := [];
         nm_links := []; nm_properties := [] |} = Ok s /\
    sget "primaryKey" s = Some (VStr "submitter_id").
Proof.
  split; [reflexivity|].
  destruct (@get_schema_primary_key subject_node
              {| nm_name := "subject"; nm_ontology_reference := "";
                 nm_values := []; nm_links := []; nm_properties := [] |}
              _ eq_refl (fun H : In "primaryKey" [] => H))
    as (s & Hrun & Hiff & _).
  exists s. split; [exact Hrun|].
  apply Hiff. eexists. split; [left; reflexivity|reflexivity].
Defined.


(** ** Rows *)

Lemma writerow_ok (w : DictWriter) (rowdict : odict) :
  (forall key, In key (dkeys rowdict) -> In key (w_fieldnames w)) ->
  writerow w rowdict = Ok (emit w (dict_to_list (w_fieldnames w) rowdict)).
Proof.
  intros H. unfold writerow.
  replace (forallb _ (dkeys rowdict)) with true; [reflexivity|].
  symmetry. apply forallb_forall. intros key Hin.
  apply existsb_exists. exists key. split; [now apply H|apply String.eqb_refl].
Qed.

Lemma writerow_extras (w : DictWriter) (rowdict : odict) (key : string) :
  In key (dkeys rowdict) -> ~ In key (w_fieldnames w) ->
  writerow w rowdict = Err ValueError.
Proof.
  intros Hin Hout. unfold writerow.
  destruct (forallb _ (dkeys rowdict)) eqn:E; [|reflexivity].
  rewrite forallb_forall in E. specialize (E key Hin).
  apply existsb_exists in E. destruct E as (x & Hx & Heq).
  apply String.eqb_eq in Heq. subst x. contradiction.
Qed.

Lemma writerow_inv (w w' : DictWriter) (rowdict : odict) :
  writerow w rowdict = Ok w' ->
  w' = emit w (dict_to_list (w_fieldnames w) rowdict) /\
  forall key, In key (dkeys rowdict) -> In key (w_fieldnames w).
Proof.
  unfold writerow. destruct (forallb _ (dkeys rowdict)) eqn:E; [|discriminate].
  intros [= <-]. split; [reflexivity|].
  intros key Hin. rewrite forallb_forall in E. specialize (E key Hin).
  apply existsb_exists in E. destruct E as (x & Hx & Heq).
  apply String.eqb_eq in Heq. now subst x.
Qed.


(** ** Relations and foreign keys *)





Lemma resolve_step_inv (relations dict dict' : odict) (k : value) :
  resolve_step relations dict k = Ok dict' ->
  exists f v, getitem k "fields" = Ok (VStr f) /\ dict' = sset f v dict.
Proof.
  unfold resolve_step.
  destruct (getitem k "reference") as [reference|e]; cbn [bind]; [|discriminate].
  destruct (getitem reference "resource") as [resource|e]; cbn [bind];
    [|discriminate].
  destruct (relations_get relations resource) as [v|e]; cbn [bind];
    [|discriminate].
  destruct (getitem k "fields") as [[| | |f| |]|e]; cbn [bind as_str];
    try discriminate.
  intros [= <-]. eauto.
Qed.

Lemma resolve_loop_keeps (relations : odict) (f : string) (post : list value)
  (dict dict' : odict) :
  (forall k', In k' post -> getitem k' "fields" <> Ok (VStr f)) ->
  foldM (resolve_step relations) post dict = Ok dict' ->
  sget f dict' = sget f dict.
Proof.
  revert dict. induction post as [|k post IH]; simpl; intros dict H.
  - now intros [= <-].
  - destruct (resolve_step relations dict k) as [d1|e] eqn:E; cbn [bind];
      [|discriminate].
    intros Hrest. rewrite (IH d1) by auto.
    apply resolve_step_inv in E. destruct E as (f' & v & Hf' & ->).
    apply sget_sset_other. intros ->. now apply (H k); auto.
Qed.

Lemma resolve_loop_keys (relations : odict) (ks : list value)
  (dict dict' : odict) :
  foldM (resolve_step relations) ks dict = Ok dict' ->
  forall key, In key (dkeys dict') <->
              In key (dkeys dict) \/
              exists k, In k ks /\ getitem k "fields" = Ok (VStr key).
Proof.
  revert dict. induction ks as [|k ks IH]; simpl; intros dict.
  - intros [= <-] key. split; [auto|intros [H|(k & [] & _)]; exact H].
  - destruct (resolve_step relations dict k) as [d1|e] eqn:E; cbn [bind];
      [|discriminate].
    intros Hrest key. rewrite (IH d1 Hrest).
    apply resolve_step_inv in E. destruct E as (f & v & Hf & ->).
    unfold sset. rewrite dkeys_dset by apply String.eqb_eq.
    split.
    + intros [[->|H]|(k' & Hin & Hk')]; eauto 6.
    + intros [H|(k' & [<-|Hin] & Hk')]; eauto 6.
      left. left. congruence.
Qed.








(** ** Paths *)

Lemma pair_eqb_eq (a b : string * string) : pair_eqb a b = true <-> a = b.
Proof.
  destruct a as [a1 a2], b as [b1 b2]. unfold pair_eqb. cbn [fst snd].
  rewrite andb_true_iff, !String.eqb_eq. split; [intros [-> ->]|intros [= -> ->]]; auto.
Qed.

Lemma path_eqb_eq (p q : path) : path_eqb p q = true <-> p = q.
Proof.
  revert q. induction p as [|s p IH]; intros [|t q]; simpl;
    try (split; [discriminate|discriminate]); [tauto|].
  rewrite andb_true_iff, String.eqb_eq, IH.
  split; [intros [-> ->]|intros [= -> ->]]; auto.
Qed.

Lemma parent_div (p : path) (s : string) : parent (p / s) = p.
Proof. apply removelast_last. Qed.

Lemma tsv_is_not_json (a b : string) :
  (a ++ ".tsv")%string <> (b ++ ".json")%string.
Proof.
  revert b. induction a as [|c a IH]; intros b H.
  - destruct b as [|c1 [|c2 [|c3 [|c4 [|c5 b]]]]]; simpl in H; discriminate H.
  - destruct b as [|c' b].
    + simpl in H. injection H as _ H.
      destruct a as [|c1 [|c2 [|c3 [|c4 [|c5 a]]]]]; simpl in H;
        discriminate H.
    + simpl in H. injection H as _ H. now apply (IH b).
Qed.

Lemma data_path_is_not_schema_path (pkg dir : path) (t t' : string) :
  data_path pkg t <> schema_path dir t'.
Proof.
  unfold data_path, schema_path, path_div. intros H.
  apply app_inj_tail in H. destruct H as [_ H].
  now apply tsv_is_not_json in H.
Qed.


Lemma disk_get_set_same (p : path) (f : file) (d : Disk) :
  dget path_eqb p (dset path_eqb p f d) = Some f.
Proof. apply dget_dset_same, path_eqb_eq. Qed.

Lemma disk_get_set_other (p q : path) (f : file) (d : Disk) :
  q <> p -> dget path_eqb q (dset path_eqb p f d) = dget path_eqb q d.
Proof. apply dget_dset_other, path_eqb_eq. Qed.

Lemma files_present_data (outdir : path) (pid t : string) (p : path) (d : Disk) :
  files_present outdir pid t d ->
  files_present outdir pid t (dset path_eqb p DataFile d)
  \/ p = schema_path (outdir / lower pid / "data") t.
Proof.
  intros [Hd [doc Hs]].
  destruct (list_eq_dec string_dec p (schema_path (outdir / lower pid / "data") t))
    as [->|Hne]; [now right|left].
  split.
  - destruct (list_eq_dec string_dec (data_path (outdir / lower pid) t) p)
      as [<-|Hne'].
    + apply disk_get_set_same.
    + now rewrite disk_get_set_other.
  - exists doc. rewrite disk_get_set_other; [exact Hs|congruence].
Qed.

Lemma files_present_json (outdir : path) (pid t : string) (p : path)
  (doc : value) (d : Disk) :
  files_present outdir pid t d ->
  p <> data_path (outdir / lower pid) t ->
  files_present outdir pid t (dset path_eqb p (JsonFile doc) d).
Proof.
  intros [Hd [doc' Hs]] Hne. split.
  - rewrite disk_get_set_other; [exact Hd|congruence].
  - destruct (list_eq_dec string_dec
                (schema_path (outdir / lower pid / "data") t) p) as [<-|Hne'].
    + exists doc. apply disk_get_set_same.
    + exists doc'. now rewrite disk_get_set_other.
Qed.

Lemma files_present_open (outdir pkg dir : path) (pid t t1 t2 : string)
  (doc : value) (d : Disk) :
  files_present outdir pid t d ->
  files_present outdir pid t
    (dset path_eqb (data_path pkg t1) DataFile
       (dset path_eqb (schema_path dir t2) (JsonFile doc) d)).
Proof.
  intros H.
  apply files_present_json with (p := schema_path dir t2) (doc := doc) in H.
  - apply files_present_data with (p := data_path pkg t1) in H.
    destruct H as [H|H]; [exact H|].
    now apply data_path_is_not_schema_path in H.
  - intros E. symmetry in E. now apply data_path_is_not_schema_path in E.
Qed.

(** ** Provisioning a package *)

Lemma foldMS_app {A B : Type} (body : B -> A -> M B) (l1 l2 : list A) (acc : B)
  (st : state) :
  foldMS body (l1 ++ l2) acc st
  = match foldMS body l1 acc st with
    | (Ok b, st') => foldMS body l2 b st'
    | (Err e, st') => (Err e, st')
    end.
Proof.
  revert acc st. induction l1 as [|x l1 IH]; intros acc st; [reflexivity|].
  cbn [app foldMS]. unfold bindM.
  destruct (body acc x st) as [[b|e] st1]; [apply IH|reflexivity].
Qed.

Lemma open_table_inv (schemas : list (string * odict)) (pkg : path)
  (pid t : string) (st st' : state) :
  open_table schemas pkg pid t st = (Ok tt, st') ->
  exists schema names,
    dget String.eqb t schemas = Some schema /\
    schema_fieldnames schema = Ok names /\
    st' = {| writers :=
               dset pair_eqb (pid, t)
                 (writeheader {| w_path := data_path pkg t;
                                 w_fieldnames := names; w_rows := [] |})
                 (writers st);
             disk :=
               dset path_eqb (data_path pkg t) DataFile
                 (dset path_eqb (schema_path (pkg / "data") t)
                    (JsonFile (VDict schema)) (disk st)) |}.
Proof.
  unfold open_table, bindM, lift, _write_schema.
  destruct (dget String.eqb t schemas) as [schema|]; [|discriminate].
  destruct (schema_fieldnames schema) as [names|e] eqn:En; [|discriminate].
  intros [= <-]. exists schema, names. cbn [writers disk].
  unfold data_path at 3. rewrite parent_div. auto.
Qed.

Lemma provisioned_open (schemas : list (string * odict)) (outdir : path)
  (pid t pid' t' : string) (n : nat) (st st' : state) :
  open_table schemas (outdir / lower pid') pid' t' st = (Ok tt, st') ->
  (provisioned schemas outdir pid t n st /\ ((pid', t') <> (pid, t) \/ n = 0%nat))
  \/ (pid', t') = (pid, t) /\ n = 0%nat ->
  provisioned schemas outdir pid t n st'.
Proof.
  intros Hopen H. apply open_table_inv in Hopen.
  destruct Hopen as (schema & names & Hs & Hn & ->).
  destruct (string_dec pid' pid) as [->|Hp];
    [destruct (string_dec t' t) as [->|Ht]|].
  - (* the writer of this very node is opened *)
    assert (n = 0%nat) as -> by (destruct H as [[_ [H|H]]|[_ H]]; congruence).
    split; cbn [writers disk].
    + split.
      * apply disk_get_set_same.
      * exists (VDict schema). rewrite disk_get_set_other
          by (intros E; symmetry in E; now apply data_path_is_not_schema_path in E).
        apply disk_get_set_same.
    + eexists. exists schema, []. split; [apply dget_dset_same, pair_eqb_eq|].
      cbn [writeheader emit w_path w_fieldnames w_rows app]. auto.
  - destruct H as [[[Hfiles Hw] _]|[[= E] _]]; [|contradiction].
    split; cbn [writers disk]; [now apply files_present_open|].
    destruct Hw as (w & schema0 & rows & Hw & Hrest).
    exists w, schema0, rows. split; [|exact Hrest].
    rewrite dget_dset_other; [exact Hw|apply pair_eqb_eq|congruence].
  - destruct H as [[[Hfiles Hw] _]|[[= E] _]]; [|contradiction].
    split; cbn [writers disk]; [now apply files_present_open|].
    destruct Hw as (w & schema0 & rows & Hw & Hrest).
    exists w, schema0, rows. split; [|exact Hrest].
    rewrite dget_dset_other; [exact Hw|apply pair_eqb_eq|congruence].
Qed.

Lemma provision_all (schemas : list (string * odict)) (outdir : path)
  (pid : string) (ts : list string) (st st' : state) :
  forM (open_table schemas (outdir / lower pid) pid) ts st = (Ok tt, st') ->
  (forall t, In t ts -> provisioned schemas outdir pid t 0 st') /\
  (forall pid0 t0 n, pid0 <> pid \/ n = 0%nat ->
                     provisioned schemas outdir pid0 t0 n st ->
                     provisioned schemas outdir pid0 t0 n st').
Proof.
  revert st. induction ts as [|t ts IH]; intros st.
  - cbn [forM]. unfold ret. intros [= <-]. split; [intros t []|auto].
  - cbn [forM]. unfold bindM.
    destruct (open_table schemas (outdir / lower pid) pid t st)
      as [[u|e] st1] eqn:Eopen; [destruct u|discriminate].
    intros Hrest. destruct (IH st1 Hrest) as [Hnew Hold]. split.
    + intros t0 [<-|Hin]; [|now apply Hnew].
      apply Hold; [now right|].
      apply (provisioned_open (pid := pid) (t := t) (n := 0) Eopen). now right.
    + intros pid0 t0 n Hcase Hprov. apply Hold; [exact Hcase|].
      apply (provisioned_open (pid := pid0) (t := t0) (n := n) Eopen). left.
      split; [exact Hprov|]. destruct Hcase as [Hne | ->];
        [left; congruence|now right].
Qed.

Lemma In_dset {K V : Type} (eqb : K -> K -> bool) (k : K) (v : V)
  (d : list (K * V)) (x : K * V) :
  (forall a b, eqb a b = true <-> a = b) ->
  In x (dset eqb k v d) -> x = (k, v) \/ In x d.
Proof.
  intros Heq. induction d as [|[k0 v0] d IH]; simpl.
  - intros [<-|[]]. now left.
  - destruct (eqb k k0) eqn:E; simpl.
    + apply Heq in E. subst k0. intros [<-|H]; auto.
    + intros [<-|H]; auto. destruct (IH H); auto.
Qed.

Lemma ensure_package_inv (schemas : list (string * odict)) (outdir : path)
  (pkgs pkgs1 : list (string * path)) (pid : string) (st st1 : state) :
  ensure_package schemas outdir pkgs pid st = (Ok pkgs1, st1) ->
  (forall pid0, In pid0 (dkeys pkgs1) <-> pid0 = pid \/ In pid0 (dkeys pkgs)) /\
  (forall x, In x pkgs1 -> x = (pid, outdir / lower pid) \/ In x pkgs) /\
  (In pid (dkeys pkgs) -> st1 = st /\ pkgs1 = pkgs) /\
  (~ In pid (dkeys pkgs) ->
   (forall t, In t (dkeys schemas) -> provisioned schemas outdir pid t 0 st1) /\
   (forall pid0 t0 n, pid0 <> pid ->
                      provisioned schemas outdir pid0 t0 n st ->
                      provisioned schemas outdir pid0 t0 n st1)).
Proof.
  unfold ensure_package, dmem.
  destruct (dget String.eqb pid pkgs) as [p|] eqn:E.
  - unfold ret. intros [= <- <-].
    apply dget_Some_In in E; [|apply String.eqb_eq].
    split; [intros pid0; split; [auto|intros [->|H]; auto]|].
    split; [auto|]. split; [auto|]. intros H. contradiction.
  - apply dget_None in E; [|apply String.eqb_eq].
    unfold bindM, ret.
    destruct (forM _ (dkeys schemas) st) as [[u|e] st2] eqn:Ef; [|discriminate].
    destruct u. intros [= <- <-].
    split; [intros pid0; apply dkeys_dset, String.eqb_eq|].
    split; [intros x Hx; apply In_dset in Hx; [exact Hx|apply String.eqb_eq]|].
    split; [intros H; contradiction|]. intros _.
    apply provision_all in Ef. destruct Ef as [Hnew Hold].
    split; [exact Hnew|]. intros pid0 t0 n Hne. apply Hold. now left.
Qed.

Lemma write_record_emit (w w' : DictWriter) (r : PfbRecord) (schema : odict) :
  _write_record w r schema = Ok w' ->
  exists row, w' = emit w row /\
              List.length row = List.length (w_fieldnames w).
Proof.
  unfold _write_record.
  destruct (resolve_foreign_keys r schema) as [dict|e]; cbn [bind];
    [|discriminate].
  intros E. apply writerow_inv in E. destruct E as [-> _].
  eexists. split; [reflexivity|]. unfold dict_to_list. apply length_map.
Qed.

Lemma write_row_inv (pid : string) (schemas : list (string * odict))
  (r : PfbRecord) (st st' : state) :
  write_row pid schemas r st = (Ok tt, st') ->
  exists w schema row,
    dget pair_eqb (pid, rec_name r) (writers st) = Some w /\
    dget String.eqb (rec_name r) schemas = Some schema /\
    _write_record w r schema = Ok (emit w row) /\
    st' = {| writers := dset pair_eqb (pid, rec_name r) (emit w row) (writers st);
             disk := disk st |}.
Proof.
  unfold write_row.
  destruct (dget pair_eqb (pid, rec_name r) (writers st)) as [w|]; [|discriminate].
  destruct (dget String.eqb (rec_name r) schemas) as [schema|]; [|discriminate].
  destruct (_write_record w r schema) as [w'|e] eqn:E; [|discriminate].
  intros [= <-].
  destruct (write_record_emit _ _ _ E) as (row & -> & _).
  exists w, schema, row. auto.
Qed.

Lemma provisioned_write_row (schemas : list (string * odict)) (outdir : path)
  (pid pid0 t0 : string) (n : nat) (r : PfbRecord) (st st' : state) :
  write_row pid schemas r st = (Ok tt, st') ->
  provisioned schemas outdir pid0 t0 n st ->
  provisioned schemas outdir pid0 t0
    (if String.eqb pid pid0 && String.eqb (rec_name r) t0 then S n else n) st'.
Proof.
  intros Hw [Hfiles (w0 & schema0 & rows & Hget & Hpath & Hs & Hn & Hrows & Hlen)].
  apply write_row_inv in Hw.
  destruct Hw as (w & schema & row & Hgw & _ & _ & ->).
  split; [exact Hfiles|]. cbn [writers].
  destruct (String.eqb pid pid0 && String.eqb (rec_name r) t0) eqn:E.
  - apply andb_true_iff in E. destruct E as [E1 E2].
    apply String.eqb_eq in E1, E2. subst pid0 t0.
    rewrite Hgw in Hget. injection Hget as ->.
    exists (emit w0 row), schema0, (rows ++ [row]).
    split; [apply dget_dset_same, pair_eqb_eq|].
    cbn [emit w_path w_fieldnames w_rows]. rewrite Hrows.
    repeat split; try assumption.
    rewrite length_app. simpl. lia.
  - exists w0, schema0, rows.
    rewrite dget_dset_other; [auto 10|apply pair_eqb_eq|].
    intros [= -> ->]. rewrite !String.eqb_refl in E. discriminate E.
Qed.

Lemma rows_written_snoc (done : list PfbRecord) (r : PfbRecord) (pid0 t0 : string) :
  rows_written (done ++ [r]) pid0 t0
  = (rows_written done pid0 t0 + if seen pid0 t0 r then 1 else 0)%nat.
Proof.
  unfold rows_written. rewrite filter_app, length_app. simpl.
  destruct (seen pid0 t0 r); reflexivity.
Qed.

Lemma rows_written_unseen (done : list PfbRecord) (pid t : string) :
  (forall r, In r done -> project_of r <> Ok pid) ->
  rows_written done pid t = 0%nat.
Proof.
  unfold rows_written. induction done as [|r done IH]; intros H; [reflexivity|].
  simpl. unfold seen at 1. pose proof (H r (or_introl eq_refl)) as Hr.
  destruct (project_of r) as [p|e]; [|apply IH; intros; apply H; now right].
  destruct (String.eqb p pid) eqn:E.
  - apply String.eqb_eq in E. congruence.
  - simpl. apply IH. intros; apply H; now right.
Qed.

Lemma tables_invariant_step (schemas : list (string * odict)) (outdir : path)
  (done : list PfbRecord) (pkgs pkgs' : list (string * path))
  (r : PfbRecord) (st st' : state) :
  tables_invariant schemas outdir done pkgs st ->
  write_tables_step schemas outdir pkgs r st = (Ok pkgs', st') ->
  tables_invariant schemas outdir (done ++ [r]) pkgs' st'.
Proof.
  intros (I1 & I2 & I3). unfold write_tables_step, bindM, lift.
  destruct (project_of r) as [pid|e] eqn:Ep; [|discriminate].
  destruct (ensure_package schemas outdir pkgs pid st) as [[pkgs1|e] st1] eqn:Ee;
    [|discriminate].
  destruct (write_row pid schemas r st1) as [[u|e] st2] eqn:Ew; [|discriminate].
  destruct u. unfold ret. intros [= <- <-].
  apply ensure_package_inv in Ee. destruct Ee as (Hkeys & Hent & Hold & Hnew).
  assert (Hmid : forall pid0 t0, In pid0 (dkeys pkgs1) -> In t0 (dkeys schemas) ->
            provisioned schemas outdir pid0 t0 (rows_written done pid0 t0) st1).
  { intros pid0 t0 Hp Ht.
    destruct (in_dec string_dec pid (dkeys pkgs)) as [Hin|Hout].
    - destruct (Hold Hin) as [-> ->]. now apply I2.
    - destruct (Hnew Hout) as [Hfresh Hkept].
      destruct (string_dec pid0 pid) as [->|Hne].
      + rewrite rows_written_unseen; [now apply Hfresh|].
        intros r0 Hr0 E. apply Hout. now apply (I1 r0).
      + apply Hkept; [exact Hne|]. apply I2; [|exact Ht].
        apply Hkeys in Hp. destruct Hp; [contradiction|assumption]. }
  split; [|split].
  - intros r0 pid0 Hr0 E. apply Hkeys. apply in_app_or in Hr0.
    destruct Hr0 as [Hr0|[<-|[]]].
    + right. now apply (I1 r0).
    + left. congruence.
  - intros pid0 t0 Hp Ht. rewrite rows_written_snoc.
    pose proof (@provisioned_write_row schemas outdir pid pid0 t0 _ r st1 st2
                  Ew (Hmid pid0 t0 Hp Ht)) as H.
    unfold seen. rewrite Ep.
    destruct (String.eqb pid pid0 && String.eqb (rec_name r) t0);
      [replace (rows_written done pid0 t0 + 1)%nat
         with (S (rows_written done pid0 t0)) by lia|rewrite Nat.add_0_r];
      exact H.
  - intros pid0 p Hin. apply Hent in Hin. destruct Hin as [[= -> ->]|Hin]; auto.
Qed.

Lemma tables_invariant_loop (schemas : list (string * odict)) (outdir : path)
  (rest done : list PfbRecord) (pkgs pkgs' : list (string * path))
  (st st' : state) :
  tables_invariant schemas outdir done pkgs st ->
  foldMS (write_tables_step schemas outdir) rest pkgs st = (Ok pkgs', st') ->
  tables_invariant schemas outdir (done ++ rest) pkgs' st'.
Proof.
  revert done pkgs st. induction rest as [|r rest IH]; intros done pkgs st Hinv.
  - cbn [foldMS]. unfold ret. intros [= <- <-]. now rewrite app_nil_r.
  - cbn [foldMS]. unfold bindM.
    destruct (write_tables_step schemas outdir pkgs r st) as [[pkgs1|e] st1] eqn:E;
      [|discriminate].
    intros Hrest.
    replace (done ++ r :: rest) with ((done ++ [r]) ++ rest)
      by (now rewrite <- app_assoc).
    apply (IH (done ++ [r]) pkgs1 st1); [|exact Hrest].
    now apply tables_invariant_step with (pkgs := pkgs) (st := st).
Qed.

Lemma tables_invariant_start (schemas : list (string * odict)) (outdir : path)
  (d : Disk) :
  tables_invariant schemas outdir [] [] {| writers := []; disk := d |}.
Proof. split; [intros r pid []|split; [intros pid t []|intros pid p []]]. Qed.

(** ** Every node of every project has its files *)


Lemma frictionless_inv (reader : Reader) (output : path) (d : Disk)
  (pkgs : list (string * path)) (st : state) :
  frictionless reader output d = (Ok pkgs, st) ->
  exists schemas st1,
    _get_schemas reader = Ok schemas /\
    _write_tables schemas (records reader) output d = (Ok pkgs, st1) /\
    st = {| writers := writers st1;
            disk := fold_left
                      (fun d pkg => _write_descriptor (fst pkg) (snd pkg) schemas d)
                      pkgs (disk st1) |}.
Proof.
  unfold frictionless.
  destruct (_get_schemas reader) as [schemas|e]; [|discriminate].
  destruct (_write_tables schemas (records reader) output d)
    as [[pkgs1|e] st1] eqn:E; [|discriminate].
  intros [= <- <-]. exists schemas, st1. auto.
Qed.









(** ** Keys that are no field names *)

Lemma resolve_foreign_keys_keeps_keys (record : PfbRecord) (schema dict : odict)
  (key : string) :
  resolve_foreign_keys record schema = Ok dict ->
  In key (dkeys (rec_object record)) -> In key (dkeys dict).
Proof.
  unfold resolve_foreign_keys.
  destruct (sget "foreignKeys" schema) as [fks|]; [|now intros [= <-]].
  destruct (iter_items fks) as [items|e]; cbn [bind]; [|discriminate].
  intros Hrun Hkey. apply (resolve_loop_keys _ _ _ Hrun). now left.
Qed.

Lemma ensure_package_provisions (schemas : list (string * odict))
  (outdir : path) (done : list PfbRecord) (pkgs pkgs1 : list (string * path))
  (pid : string) (st st1 : state) :
  tables_invariant schemas outdir done pkgs st ->
  ensure_package schemas outdir pkgs pid st = (Ok pkgs1, st1) ->
  forall t, In t (dkeys schemas) ->
            exists n, provisioned schemas outdir pid t n st1.
Proof.
  intros (I1 & I2 & _) Hrun t Ht.
  apply ensure_package_inv in Hrun. destruct Hrun as (_ & _ & Hold & Hnew).
  destruct (in_dec string_dec pid (dkeys pkgs)) as [Hin|Hout].
  - destruct (Hold Hin) as [-> _]. eauto.
  - destruct (Hnew Hout) as [Hfresh _]. eauto.
Qed.

Lemma write_row_undeclared (schemas : list (string * odict)) (outdir : path)
  (pid : string) (r : PfbRecord) (n : nat) (st : state)
  (schema dict : odict) (names : list string) (key : string) :
  provisioned schemas outdir pid (rec_name r) n st ->
  dget String.eqb (rec_name r) schemas = Some schema ->
  schema_fieldnames schema = Ok names ->
  resolve_foreign_keys r schema = Ok dict ->
  In key (dkeys dict) -> ~ In key names ->
  write_row pid schemas r st = (Err ValueError, st).
Proof.
  intros [_ (w & schema0 & rows & Hw & _ & Hs0 & Hn0 & _)] Hs Hn Hres Hin Hout.
  rewrite Hs in Hs0. injection Hs0 as <-.
  rewrite Hn in Hn0. injection Hn0 as ->.
  unfold write_row. rewrite Hw, Hs. unfold _write_record.
  rewrite Hres. cbn [bind].
  now rewrite writerow_extras with (key := key).
Qed.

(** C10: a record whose object, once its foreign keys are resolved, has a
    key that is not among the field names of its node's schema makes
    [_write_record] raise [ValueError] (every key of the record's object is
    still a key then), and the run aborts with an exception at that record
    if not before: when the records before it were written and the record's
    package could be provisioned, the exception is [ValueError] and no row
    is written for the record. *)
Theorem undeclared_key_aborts :
  (forall w record schema dict key,
      resolve_foreign_keys record schema = Ok dict ->
      In key (dkeys dict) -> ~ In key (w_fieldnames w) ->
      _write_record w record schema = Err ValueError) /\
  (forall record schema dict key,
      resolve_foreign_keys record schema = Ok dict ->
      In key (dkeys (rec_object record)) -> In key (dkeys dict)) /\
  (forall reader output d schemas pre r post schema names dict key,
      _get_schemas reader = Ok schemas ->
      records reader = pre ++ r :: post ->
      dget String.eqb (rec_name r) schemas = Some schema ->
      schema_fieldnames schema = Ok names ->
      resolve_foreign_keys r schema = Ok dict ->
      In key (dkeys dict) -> ~ In key names ->
      exists e st,
        frictionless reader output d = (Err e, st) /\
        forall pkgs1 st1 pid pkgs2 st2,
          _write_tables schemas pre output d = (Ok pkgs1, st1) ->
          project_of r = Ok pid ->
          ensure_package schemas output pkgs1 pid st1 = (Ok pkgs2, st2) ->
          e = ValueError /\ st = st2).
Proof.
  split; [|split].
  - intros w record schema dict key Hres Hin Hout.
    unfold _write_record. rewrite Hres. cbn [bind].
    now apply writerow_extras with (key := key).
  - intros record schema dict key. apply resolve_foreign_keys_keeps_keys.
  - intros reader output d schemas pre r post schema names dict key
           Hs Hrec Hschema Hnames Hres Hin Hout.
    unfold frictionless. rewrite Hs, Hrec. unfold _write_tables.
    rewrite foldMS_app.
    destruct (foldMS (write_tables_step schemas output) pre []
                {| writers := []; disk := d |}) as [[pkgs1|e] st1] eqn:Epre.
    + pose proof (@tables_invariant_loop schemas output pre [] [] pkgs1 _ st1
                    (tables_invariant_start schemas output d) Epre) as Hinv.
      cbn [app] in Hinv. cbn [foldMS]. unfold bindM at 1.
      unfold write_tables_step, bindM, lift.
      destruct (project_of r) as [pid|e] eqn:Ep.
      * destruct (ensure_package schemas output pkgs1 pid st1)
          as [[pkgs2|e] st2] eqn:Ee.
        -- assert (Ht : In (rec_name r) (dkeys schemas))
             by (apply dget_Some_In in Hschema;
                 [exact Hschema|apply String.eqb_eq]).
           destruct (ensure_package_provisions _ Hinv Ee _ Ht) as [n Hprov].
           rewrite write_row_undeclared
             with (outdir := output) (n := n) (schema := schema)
                  (dict := dict) (names := names) (key := key);
             try assumption.
           exists ValueError, st2. split; [reflexivity|].
           intros ? ? ? ? ? [= <- <-] [= <-] Ee'.
           rewrite Ee in Ee'. injection Ee' as <- <-. auto.
        -- exists e, st2. split; [reflexivity|].
           intros ? ? ? ? ? [= <- <-] [= <-] Ee'.
           rewrite Ee in Ee'. discriminate Ee'.
      * exists e, st1. split; [reflexivity|].
        intros ? ? ? ? ? _ E. discriminate E.
    + exists e, st1. split; [reflexivity|].
      intros ? ? ? ? ? E. discriminate E.
Qed.

Lemma undeclared_key_aborts_witness :
  records scenario_reader = [] ++ subject_A1 :: [] /\
  In "project_id" (dkeys (rec_object subject_A1)) /\
  ~ In "project_id" ["submitter_id"; "age"] /\
  exists e st, frictionless scenario_reader ["out"] [] = (Err e, st).
Proof.
  split; [reflexivity|]. split; [left; reflexivity|].
  assert (Hout : ~ In "project_id" ["submitter_id"; "age"]).
  { intros [H|[H|[]]]; discriminate H. }
  split; [exact Hout|].
  destruct (_get_schemas scenario_reader) as [schemas|e] eqn:Es;
    [|discriminate Es].
  destruct (dget String.eqb (rec_name subject_A1) schemas) as [schema|] eqn:Eg;
    [|injection Es as <-; discriminate Eg].
  assert (Hn : schema_fieldnames schema = Ok ["submitter_id"; "age"]).
  { injection Es as <-. injection Eg as <-. reflexivity. }
  assert (Hr : resolve_foreign_keys subject_A1 schema
               = Ok (rec_object subject_A1)).
  { injection Es as <-. injection Eg as <-. reflexivity. }
  destruct (proj2 (proj2 undeclared_key_aborts)
              scenario_reader ["out"] [] schemas [] subject_A1 []
              schema ["submitter_id"; "age"] (rec_object subject_A1)
              "project_id" Es eq_refl Eg Hn Hr (or_introl eq_refl) Hout)
    as (e & st & Hrun & _).
  exists e, st. exact Hrun.
Defined.

(** ** Configuration errors *)

Lemma foldM_error {A B : Type} (f : B -> A -> result B) (l : list A) (acc : B)
  (e : exn) :
  (forall b x e', f b x = Err e' -> e' = KeyError) ->
  foldM f l acc = Err e -> e = KeyError.
Proof.
  intros Hf. revert acc. induction l as [|x l IH]; simpl; intros acc;
    [discriminate|].
  destruct (f acc x) as [b|e'] eqn:E; simpl; [apply IH|].
  intros [= <-]. now apply (Hf acc x).
Qed.

Lemma mapM_error {A B : Type} (f : A -> result B) (l : list A) (e : exn) :
  (forall x e', f x = Err e' -> e' = KeyError) ->
  mapM f l = Err e -> e = KeyError.
Proof.
  intros Hf. induction l as [|x l IH]; simpl; [discriminate|].
  destruct (f x) as [y|e'] eqn:E; simpl.
  - destruct (mapM f l) as [ys|e']; simpl; [discriminate|].
    intros [= <-]. now apply IH.
  - intros [= <-]. now apply (Hf x).
Qed.

Lemma add_type_step_error (d : odict) (t : TypeTag) (e : exn) :
  add_type_step d t = Err e -> e = KeyError.
Proof.
  destruct t as [s|c]; cbn [add_type_step].
  - destruct (dget String.eqb s type_map); discriminate.
  - destruct (value_is_str (sget "type" c) "enum"); [|discriminate].
    destruct (sget "symbols" c); [discriminate|now intros [= <-]].
Qed.

Lemma get_schema_error (record : NodeSchema) (meta : NodeMetadata) (e : exn) :
  _get_schema record meta = Err e -> e = KeyError.
Proof.
  unfold _get_schema.
  destruct (field_descriptors record meta) as [fields|e'] eqn:Ef; cbn [bind].
  - destruct (get_schema_linked record meta Ef) as (s1 & Hrun & _).
    unfold _get_schema in Hrun. rewrite Ef in Hrun. cbn [bind] in Hrun.
    rewrite Hrun. discriminate.
  - intros [= <-]. unfold field_descriptors in Ef.
    apply mapM_error in Ef; [exact Ef|].
    intros field e0. unfold _field_descriptor, _add_type.
    destruct (foldM add_type_step (field_type field)
                [("name", VStr (field_name field))]) as [d0|e1] eqn:Ea;
      cbn [bind].
    + destruct (dget String.eqb (field_name field)
                  (index_by_name fm_name (nm_properties meta))); discriminate.
    + intros [= <-]. apply foldM_error in Ea; [exact Ea|].
      intros b x e2. apply add_type_step_error.
Qed.

Lemma get_schemas_missing_metadata (meta : list (string * NodeMetadata))
  (nodes : list NodeSchema) (node : NodeSchema)
  (acc : list (string * odict)) :
  In node nodes -> dget String.eqb (ns_name node) meta = None ->
  foldM (get_schemas_step meta) nodes acc = Err KeyError.
Proof.
  intros Hin Hnone. revert acc.
  induction nodes as [|x nodes IH]; [destruct Hin|]. intros acc. simpl.
  destruct (get_schemas_step meta acc x) as [acc1|e] eqn:E; simpl.
  - destruct Hin as [->|Hin]; [|now apply IH].
    unfold get_schemas_step in E. rewrite Hnone in E. discriminate E.
  - f_equal. unfold get_schemas_step in E.
    destruct (dget String.eqb (ns_name x) meta) as [m|]; [|congruence].
    destruct (_get_schema x m) as [s|e'] eqn:Eg; cbn [bind] in E;
      [discriminate E|].
    injection E as <-. now apply get_schema_error in Eg.
Qed.

Lemma write_row_unknown_node (pid : string) (schemas : list (string * odict))
  (r : PfbRecord) (st : state) :
  dget String.eqb (rec_name r) schemas = None ->
  write_row pid schemas r st = (Err KeyError, st).
Proof.
  intros H. unfold write_row.
  destruct (dget pair_eqb (pid, rec_name r) (writers st)); [|reflexivity].
  now rewrite H.
Qed.

Lemma write_tables_step_unknown_node (schemas : list (string * odict))
  (outdir : path) (pkgs : list (string * path)) (r : PfbRecord) (st : state) :
  dget String.eqb (rec_name r) schemas = None ->
  exists e st',
    write_tables_step schemas outdir pkgs r st = (Err e, st') /\
    forall pid pkgs2 st2,
      project_of r = Ok pid ->
      ensure_package schemas outdir pkgs pid st = (Ok pkgs2, st2) ->
      e = KeyError /\ st' = st2.
Proof.
  intros H. unfold write_tables_step, bindM, lift.
  destruct (project_of r) as [pid|e] eqn:Ep.
  - destruct (ensure_package schemas outdir pkgs pid st) as [[pkgs2|e] st2] eqn:Ee.
    + rewrite write_row_unknown_node by exact H.
      exists KeyError, st2. split; [reflexivity|].
      intros ? ? ? [= <-] Ee'. rewrite Ee in Ee'. injection Ee' as <- <-. auto.
    + exists e, st2. split; [reflexivity|].
      intros ? ? ? [= <-] Ee'. rewrite Ee in Ee'. discriminate Ee'.
  - exists e, st. split; [reflexivity|]. intros ? ? ? E. discriminate E.
Qed.

(** C6, as the spec words it, fails: the run of the spec's own scenario
    fails, with [ValueError] for the key [project_id], although every node
    has its metadata and the record's node is in the catalog. *)
Lemma run_fails_without_configuration_error :
  (exists st, frictionless scenario_reader ["out"] [] = (Err ValueError, st)) /\
  (forall node, In node (schema scenario_reader) ->
                In (ns_name node) (map nm_name (metadata_nodes scenario_reader))) /\
  (forall schemas r, _get_schemas scenario_reader = Ok schemas ->
                     In r (records scenario_reader) ->
                     dget String.eqb (rec_name r) schemas <> None) /\
  ~ fails_exactly_on_configuration_errors.
Proof.
  assert (H1 : exists st,
             frictionless scenario_reader ["out"] [] = (Err ValueError, st))
    by (eexists; reflexivity).
  assert (H2 : forall node, In node (schema scenario_reader) ->
             In (ns_name node) (map nm_name (metadata_nodes scenario_reader)))
    by (intros node [<-|[]]; left; reflexivity).
  assert (H3 : forall schemas r, _get_schemas scenario_reader = Ok schemas ->
             In r (records scenario_reader) ->
             dget String.eqb (rec_name r) schemas <> None)
    by (intros schemas r [= <-] [<-|[]]; discriminate).
  repeat split; try assumption.
  intros H. destruct H1 as [st Hst].
  destruct (proj1 (H scenario_reader ["out"] []))
    as [(node & Hin & Hout)|(schemas & r & Hs & Hin & Hnone)].
  - eauto.
  - apply Hout. now apply H2.
  - now apply (H3 schemas r).
Qed.

(** C6 (amended): the run fails whenever a node of the schema listing has
    no metadata entry, with [KeyError] and before anything is written, and
    whenever a record's node name is absent from the catalog: the run then
    ends at that record if not before, the records after it are not
    consumed, and when the records before it were written and the record's
    package could be provisioned the exception is [KeyError] and the record
    is not written.  These are not the only failures of a run. *)
Theorem configuration_errors_abort :
  (forall reader output d node,
      In node (schema reader) ->
      ~ In (ns_name node) (map nm_name (metadata_nodes reader)) ->
      frictionless reader output d
      = (Err KeyError, {| writers := []; disk := d |})) /\
  (forall reader output d schemas pre r post,
      _get_schemas reader = Ok schemas ->
      records reader = pre ++ r :: post ->
      dget String.eqb (rec_name r) schemas = None ->
      exists e st,
        frictionless reader output d = (Err e, st) /\
        _write_tables schemas (pre ++ [r]) output d = (Err e, st) /\
        forall pkgs1 st1 pid pkgs2 st2,
          _write_tables schemas pre output d = (Ok pkgs1, st1) ->
          project_of r = Ok pid ->
          ensure_package schemas output pkgs1 pid st1 = (Ok pkgs2, st2) ->
          e = KeyError /\ st = st2).
Proof.
  split.
  - intros reader output d node Hin Hout. unfold frictionless, _get_schemas.
    rewrite get_schemas_missing_metadata with (node := node);
      [reflexivity|exact Hin|].
    now apply index_by_name_None.
  - intros reader output d schemas pre r post Hs Hrec Hnone.
    unfold frictionless. rewrite Hs, Hrec. unfold _write_tables.
    rewrite !foldMS_app.
    destruct (foldMS (write_tables_step schemas output) pre []
                {| writers := []; disk := d |}) as [[pkgs1|e] st1] eqn:Epre.
    + destruct (write_tables_step_unknown_node schemas output pkgs1 r st1 Hnone)
        as (e & st' & Hstep & Hkind).
      cbn [foldMS]. unfold bindM. rewrite Hstep.
      exists e, st'. split; [reflexivity|]. split; [reflexivity|].
      intros ? ? ? ? ? [= <- <-]. apply Hkind.
    + exists e, st1. split; [reflexivity|]. split; [reflexivity|].
      intros ? ? ? ? ? E. discriminate E.
Qed.

Lemma configuration_errors_abort_witness :
  (In subject_node (schema orphan_reader) /\
   ~ In (ns_name subject_node) (map nm_name (metadata_nodes orphan_reader)) /\
   frictionless orphan_reader ["out"] []
   = (Err KeyError, {| writers := []; disk := [] |})) /\
  (records stray_reader = [] ++ stray_record :: [] /\
   exists st, frictionless stray_reader ["out"] [] = (Err KeyError, st)).
Proof.
  split.
  - split; [left; reflexivity|]. split; [intros []|].
    apply (proj1 configuration_errors_abort orphan_reader ["out"] []
             subject_node (or_introl eq_refl)).
    intros [].
  - split; [reflexivity|].
    destruct (_get_schemas stray_reader) as [schemas|e] eqn:Es;
      [|discriminate Es].
    assert (Hnone : dget String.eqb (rec_name stray_record) schemas = None)
      by (injection Es as <-; reflexivity).
    destruct (proj2 configuration_errors_abort stray_reader ["out"] []
                schemas [] stray_record [] Es eq_refl Hnone)
      as (e & st & Hrun & _ & Hkind).
    destruct (ensure_package schemas ["out"] [] "proj1"
                {| writers := []; disk := [] |}) as [[pkgs2|e2] st2] eqn:Ee;
      [|injection Es as <-; discriminate Ee].
    destruct (Hkind [] {| writers := []; disk := [] |} "proj1" pkgs2 st2
                eq_refl eq_refl Ee) as [-> _].
    exists st. exact Hrun.
Defined.

(** ** The scenario of the spec *)

(** C2, as the spec words it, fails: the record's object has the key
    [project_id], which is no field of [subject], so writing the row raises
    [ValueError]; the data file is left with its header and no package
    descriptor is written. *)
Lemma scenario_run_fails :
  (exists st,
      frictionless scenario_reader ["out"] [] = (Err ValueError, st) /\
      tsv_lines ["out"; "proj1"; "data"; "subject.tsv"] st
      = Some [tab_sep "submitter_id" "age"] /\
      dget path_eqb ["out"; "proj1"; "datapackage.json"] (disk st) = None) /\
  ~ scenario_as_specified.
Proof.
  split.
  - eexists. split; [reflexivity|]. split; reflexivity.
  - intros (pkgs & st & resource & Hrun & _). discriminate Hrun.
Qed.

(** C2 (amended): on the scenario as given the run writes
    [proj1/data/subject.json] with the two typed fields and the primary key,
    opens [proj1/data/subject.tsv] with the header, and stops with
    [ValueError] at the record, whose key [project_id] is no field of the
    node: no data row and no [datapackage.json] are produced.  With
    [project_id] declared as a third, string field of [subject], the run
    returns, the data file holds the header and the row of the record, and
    [proj1/datapackage.json] lists one resource, named [subject]. *)
Theorem scenario_run :
  (exists st,
      frictionless scenario_reader ["out"] [] = (Err ValueError, st) /\
      dget path_eqb ["out"; "proj1"; "data"; "subject.json"] (disk st)
      = Some (JsonFile subject_table_schema) /\
      tsv_lines ["out"; "proj1"; "data"; "subject.tsv"] st
      = Some [tab_sep "submitter_id" "age"] /\
      dget path_eqb ["out"; "proj1"; "datapackage.json"] (disk st) = None) /\
  (exists st resource,
      frictionless declared_reader ["out"] []
      = (Ok [("proj1", ["out"; "proj1"])], st) /\
      tsv_lines ["out"; "proj1"; "data"; "subject.tsv"] st
      = Some [tab_sep "submitter_id" (tab_sep "age" "project_id");
              tab_sep "A1" (tab_sep "30" "proj1")] /\
      dget path_eqb ["out"; "proj1"; "data"; "subject.json"] (disk st)
      = Some (JsonFile
                (VDict [("fields",
                         VList [VDict [("name", VStr "submitter_id");
                                       ("type", VStr "string")];
                                VDict [("name", VStr "age");
                                       ("type", VStr "integer")];
                                VDict [("name", VStr "project_id");
                                       ("type", VStr "string")]]);
                        ("primaryKey", VStr "submitter_id")])) /\
      dget path_eqb ["out"; "proj1"; "datapackage.json"] (disk st)
      = Some (JsonFile (VDict [("name", VStr "proj1");
                               ("resources", VList [resource])])) /\
      getitem resource "name" = Ok (VStr "subject") /\
      getitem resource "path" = Ok (VStr "data/subject.tsv") /\
      getitem resource "schema" = Ok (VStr "data/subject.json")).
Proof.
  split.
  - eexists. split; [reflexivity|]. repeat split.
  - eexists. eexists. split; [reflexivity|].
    split; [reflexivity|]. split; [reflexivity|].
    split; [reflexivity|]. repeat split.
Qed.

(** ** The paths of the package descriptor *)

Lemma split_path_plain (acc s : string) :
  has_slash s = false -> split_path acc s = [(acc ++ s)%string].
Proof.
  revert acc. induction s as [|c s IH]; intros acc; simpl.
  - intros _. f_equal. clear. induction acc as [|a acc IH]; simpl; congruence.
  - destruct (Ascii.eqb c "/"%char); simpl; [discriminate|].
    intros H. rewrite IH by exact H. f_equal.
    clear. induction acc as [|a acc IH]; simpl; congruence.
Qed.

Lemma has_slash_app (s t : string) :
  has_slash (s ++ t) = has_slash s || has_slash t.
Proof.
  induction s as [|c s IH]; simpl; [reflexivity|].
  now rewrite IH, orb_assoc.
Qed.

(** For a node whose name is in lower case already, the descriptor's [path]
    and [schema] are the files that [_write_tables] wrote. *)
Lemma descriptor_paths_of_lowercase_node (pkg : path) (t : string) :
  lower t = t -> has_slash t = false ->
  resolve pkg ("data/" ++ t ++ ".tsv") = data_path pkg t /\
  resolve pkg ("data/" ++ t ++ ".json") = schema_path (pkg / "data") t.
Proof.
  intros Hl Hs. unfold resolve, data_path, schema_path, path_div.
  rewrite Hl, <- !app_assoc. cbn [app]. cbn [split_path String.append Ascii.eqb Bool.eqb].
  rewrite !split_path_plain by (rewrite has_slash_app, Hs; reflexivity).
  auto.
Qed.

(** C4 fails on the code for a node named [Subject]: the data and schema
    files are written under the lower-cased name, while the descriptor's
    [path] and [schema] keep the name as it is and so point at files that do
    not exist. *)
Theorem descriptor_misses_uppercase_node :
  exists pkgs st resource,
    frictionless uppercase_reader ["out"] [] = (Ok pkgs, st) /\
    dget path_eqb ["out"; "proj1"; "datapackage.json"] (disk st)
    = Some (JsonFile (VDict [("name", VStr "proj1");
                             ("resources", VList [resource])])) /\
    getitem resource "path" = Ok (VStr "data/Subject.tsv") /\
    getitem resource "schema" = Ok (VStr "data/Subject.json") /\
    dget path_eqb (resolve ["out"; "proj1"] "data/Subject.tsv") (disk st)
    = None /\
    dget path_eqb (resolve ["out"; "proj1"] "data/Subject.json") (disk st)
    = None /\
    dget path_eqb ["out"; "proj1"; "data"; "subject.tsv"] (disk st)
    = Some DataFile /\
    exists doc,
      dget path_eqb ["out"; "proj1"; "data"; "subject.json"] (disk st)
      = Some (JsonFile doc).
Proof.
  eexists. eexists. eexists. split; [reflexivity|].
  split; [reflexivity|]. repeat split. eexists. reflexivity.
Qed.

(** * Further properties of the exporter *)

(** ** Field descriptors *)

(** X1: a field none of whose alternatives is an enum or one of [string],
    [float], [long], [boolean] (so also [int], [double], [null] and complex
    types other than enums) gets a descriptor that holds its name and no
    type: [_add_type] returns the descriptor as it was, and nothing is
    raised. *)
Theorem unmapped_types_leave_field_untyped (field : SourceField) :
  (forall u, In u (field_type field) ->
             is_mapped_scalar u = false /\ is_enum_tag u = false) ->
  (forall d0, _add_type field d0 = Ok d0) /\
  _field_descriptor field None = Ok [("name", VStr (field_name field))].
Proof.
  intros H.
  assert (Hadd : forall d0, _add_type field d0 = Ok d0)
    by (intros d0; unfold _add_type; now apply add_type_ignored).
  split; [exact Hadd|]. unfold _field_descriptor. now rewrite Hadd.
Qed.

Lemma unmapped_types_leave_field_untyped_witness :
  _field_descriptor count_field None = Ok [("name", VStr "count")].
Proof.
  apply (unmapped_types_leave_field_untyped count_field).
  intros u [<-|[<-|[<-|[]]]]; split; reflexivity.
Defined.

Lemma add_type_step_keys (d d' : odict) (u : TypeTag) (k : string) :
  add_type_step d u = Ok d' ->
  In k (dkeys d') -> In k (dkeys d) \/ k = "type" \/ k = "constraints".
Proof.
  destruct u as [s|c]; cbn [add_type_step].
  - destruct (dget String.eqb s type_map); intros [= <-] Hk; [|auto].
    apply dkeys_dset in Hk; [|apply String.eqb_eq]. tauto.
  - destruct (value_is_str (sget "type" c) "enum"); [|intros [= <-]; auto].
    destruct (sget "symbols" c); [|discriminate]. intros [= <-] Hk.
    apply dkeys_dset in Hk; [|apply String.eqb_eq].
    destruct Hk as [->|Hk]; [auto|].
    apply dkeys_dset in Hk; [|apply String.eqb_eq]. tauto.
Qed.

(** X2: [_add_type] writes the entries [type] and [constraints] of the
    descriptor and no other: every other entry keeps its value, no other key
    is added, and [constraints] is left alone when no alternative is an
    enum. *)
Theorem add_type_writes_type_and_constraints_only (field : SourceField)
  (d0 d : odict) :
  _add_type field d0 = Ok d ->
  (forall k, k <> "type" -> k <> "constraints" -> sget k d = sget k d0) /\
  (forall k, In k (dkeys d) ->
             In k (dkeys d0) \/ k = "type" \/ k = "constraints") /\
  ((forall u, In u (field_type field) -> is_enum_tag u = false) ->
   sget "constraints" d = sget "constraints" d0).
Proof.
  unfold _add_type. intros H. split; [|split].
  - intros k Ht Hc.
    apply add_type_keeps with (types := field_type field); auto.
  - revert d0 H. induction (field_type field) as [|u types IH]; simpl;
      intros d0 H k Hk.
    + injection H as <-. auto.
    + destruct (add_type_step d0 u) as [d1|e] eqn:E; simpl in H;
        [|discriminate].
      destruct (IH d1 H k Hk) as [Hin|Hin]; [|auto].
      eapply add_type_step_keys; eassumption.
  - intros Hno.
    apply add_type_keeps with (types := field_type field);
      [discriminate|now right|exact H].
Qed.

Lemma add_type_writes_type_and_constraints_only_witness :
  _add_type age_field [("name", VStr "age"); ("title", VStr "Age")]
  = Ok [("name", VStr "age"); ("title", VStr "Age"); ("type", VStr "integer")]
  /\ sget "title" [("name", VStr "age"); ("title", VStr "Age");
                   ("type", VStr "integer")]
     = sget "title" [("name", VStr "age"); ("title", VStr "Age")].
Proof.
  split; [reflexivity|].
  apply (proj1 (@add_type_writes_type_and_constraints_only age_field
                  [("name", VStr "age"); ("title", VStr "Age")]
                  [("name", VStr "age"); ("title", VStr "Age");
                   ("type", VStr "integer")] eq_refl));
    discriminate.
Defined.

(** X3: metadata whose name is not the field's name is ignored: the
    descriptor is the one built without metadata. *)
Theorem metadata_of_another_field_is_ignored (field : SourceField)
  (meta : FieldMeta) :
  fm_name meta <> field_name field ->
  _field_descriptor field (Some meta) = _field_descriptor field None.
Proof.
  intros Hne. unfold _field_descriptor.
  destruct (_add_type field [("name", VStr (field_name field))])
    as [d0|e] eqn:E; cbn [bind]; [|reflexivity].
  unfold merge_meta. rewrite (add_type_name field E). cbn [value_is_str].
  destruct (String.eqb (field_name field) (fm_name meta)) eqn:Eq;
    [|reflexivity].
  apply String.eqb_eq in Eq. congruence.
Qed.

Lemma metadata_of_another_field_is_ignored_witness :
  _field_descriptor submitter_id_field (Some age_meta)
  = _field_descriptor submitter_id_field None.
Proof.
  apply (metadata_of_another_field_is_ignored submitter_id_field age_meta).
  discriminate.
Defined.

Lemma dkeys_supdate (k : string) (d src : odict) :
  In k (dkeys (supdate d src)) <-> In k (dkeys d) \/ In k (dkeys src).
Proof.
  unfold supdate, dupdate. revert d.
  induction src as [|[k0 v0] src IH]; simpl; intros d; [tauto|].
  rewrite IH, dkeys_dset by apply String.eqb_eq. intuition congruence.
Qed.

(** X4: for metadata of the field itself whose annotations have no key
    [ontology_reference], the descriptor carries the metadata's ontology
    reference when it is not empty, and no [ontology_reference] entry when
    it is empty; every annotation becomes an entry of the descriptor. *)
Theorem field_descriptor_ontology_reference (field : SourceField)
  (meta : FieldMeta) (d : odict) :
  fm_name meta = field_name field ->
  ~ In "ontology_reference" (map fst (fm_values meta)) ->
  _field_descriptor field (Some meta) = Ok d ->
  (fm_ontology_reference meta <> "" ->
   sget "ontology_reference" d = Some (VStr (fm_ontology_reference meta))) /\
  (fm_ontology_reference meta = "" -> sget "ontology_reference" d = None) /\
  (forall k, In k (map fst (fm_values meta)) -> In k (dkeys d)).
Proof.
  intros Hname Hv. unfold _field_descriptor.
  destruct (_add_type field [("name", VStr (field_name field))])
    as [d0|e] eqn:E; cbn [bind]; [|discriminate].
  intros [= <-]. pose proof (add_type_name field E) as Hn.
  rewrite merge_meta_matching by (now rewrite Hname).
  split; [|split].
  - intros Hne. rewrite sget_supdate_other by exact Hv.
    apply String.eqb_neq in Hne. rewrite Hne. apply sget_sset_same.
  - intros Hempty. rewrite sget_supdate_other by exact Hv.
    rewrite Hempty. cbn [String.eqb].
    unfold _add_type in E.
    rewrite add_type_keeps with (types := field_type field)
                                (d := [("name", VStr (field_name field))]);
      [reflexivity|discriminate|left; discriminate|exact E].
  - intros k Hk. apply dkeys_supdate. right.
    now rewrite dkeys_values_dict.
Qed.

Lemma field_descriptor_ontology_reference_witness :
  exists d, _field_descriptor age_field (Some age_meta_ref) = Ok d /\
            sget "ontology_reference" d = Some (VStr "NCIT:C25150") /\
            In "unit" (dkeys d).
Proof.
  eexists. split; [reflexivity|].
  destruct (@field_descriptor_ontology_reference age_field age_meta_ref _
              eq_refl
              (fun H : In "ontology_reference" ["unit"] =>
                 match H with
                 | or_introl E => ltac:(discriminate E)
                 | or_intror F => F
                 end)
              eq_refl) as (Href & _ & Hkeys).
  split; [apply Href; discriminate|apply Hkeys; left; reflexivity].
Defined.

(** ** Table schemas and the catalog *)

Lemma fieldnames_of_descriptors (names : list string) (ds : list odict) :
  Forall2 (fun n d => sget "name" d = Some (VStr n)) names ds ->
  mapM (fun f => bind (getitem f "name") as_str) (map VDict ds) = Ok names.
Proof.
  induction 1 as [|n d names ds Hn _ IH]; [reflexivity|].
  cbn [map mapM getitem]. rewrite Hn. cbn [bind as_str].
  rewrite IH. reflexivity.
Qed.

Lemma schema_fieldnames_of_descriptors (s : odict) (names : list string)
  (ds : list odict) :
  sget "fields" s = Some (VList (map VDict ds)) ->
  Forall2 (fun n d => sget "name" d = Some (VStr n)) names ds ->
  schema_fieldnames s = Ok names.
Proof.
  intros Hf Hn. unfold schema_fieldnames. cbn [getitem]. rewrite Hf.
  cbn [bind iter_items]. now apply fieldnames_of_descriptors.
Qed.

Lemma Forall2_flip_map {A B C : Type} (f : A -> C) (R : C -> B -> Prop)
  (l : list A) (l' : list B) :
  Forall2 (fun a b => R (f a) b) l l' -> Forall2 R (map f l) l'.
Proof. induction 1; constructor; auto. Qed.

(** X5: when every enum has its symbols, no field annotation has the key
    [name] and no node annotation has the key [fields], the schema is built
    and its field names, which are the columns of the data file in order,
    are the names of the declared fields in their order followed by the
    names of the links in their order. *)
Theorem schema_fields_in_declared_order (record : NodeSchema)
  (meta : NodeMetadata) :
  (forall field, In field (ns_fields record) ->
                 enums_have_symbols (field_type field)) ->
  (forall p, In p (nm_properties meta) ->
             ~ In "name" (map fst (fm_values p))) ->
  ~ In "fields" (map fst (nm_values meta)) ->
  exists s,
    _get_schema record meta = Ok s /\
    schema_fieldnames s
    = Ok (map field_name (ns_fields record) ++ map link_name (nm_links meta)).
Proof.
  intros Hwf Hp Hv.
  destruct (field_descriptors_total record meta Hwf) as [fields Hf].
  destruct (get_schema_linked record meta Hf) as (s1 & Hrun & Hfields & _).
  exists (annotate_schema meta s1). split; [exact Hrun|].
  apply schema_fieldnames_of_descriptors
    with (ds := fields
                ++ map (fun l => [("name", VStr (link_name l))]) (nm_links meta)).
  - rewrite annotate_schema_keeps by (discriminate || exact Hv).
    rewrite Hfields, map_app, map_map. reflexivity.
  - apply Forall2_app.
    + apply Forall2_flip_map.
      exact (field_descriptors_names record meta Hf Hp).
    + clear. induction (nm_links meta) as [|l links IH]; simpl;
        [constructor|constructor; [reflexivity|exact IH]].
Qed.

Lemma schema_fields_in_declared_order_witness :
  exists s, _get_schema visit_node visit_meta_linked = Ok s /\
            schema_fieldnames s = Ok ["age"; "submitter_id"].
Proof.
  apply (schema_fields_in_declared_order visit_node visit_meta_linked).
  - intros field [<-|[]] t [<-|[]] E. discriminate E.
  - intros p [].
  - intros [].
Defined.

Lemma add_type_ok_enums (types : list TypeTag) (d0 d : odict) :
  foldM add_type_step types d0 = Ok d -> enums_have_symbols types.
Proof.
  revert d0. induction types as [|u types IH]; simpl; intros d0 H t Hin He;
    [destruct Hin|].
  destruct (add_type_step d0 u) as [d1|e] eqn:E; simpl in H; [|discriminate].
  destruct Hin as [<-|Hin]; [|exact (IH d1 H t Hin He)].
  destruct u as [s|c]; cbn [is_enum_tag add_type_step] in *; [discriminate|].
  rewrite He in E. destruct (sget "symbols" c) as [symbols|] eqn:Es;
    [|discriminate].
  exists symbols, c. apply value_is_str_true in He. auto.
Qed.

Lemma mapM_ok_each {A B : Type} (f : A -> result B) (l : list A) (ys : list B)
  (x : A) :
  mapM f l = Ok ys -> In x l -> exists y, f x = Ok y.
Proof.
  intros H. apply mapM_Forall2 in H.
  induction H as [|a b l l' Hab _ IH]; intros Hin; [destruct Hin|].
  destruct Hin as [<-|Hin]; eauto.
Qed.

(** X6: [_get_schema] returns exactly when every dict of every field's type
    list that says it is an enum has its [symbols]; when it does not return,
    the exception is [KeyError]. *)
Theorem get_schema_returns_iff_enums_have_symbols (record : NodeSchema)
  (meta : NodeMetadata) :
  ((exists s, _get_schema record meta = Ok s)
   <-> forall field, In field (ns_fields record) ->
                     enums_have_symbols (field_type field)) /\
  (forall e, _get_schema record meta = Err e -> e = KeyError).
Proof.
  split; [split|].
  - intros [s Hs] field Hin. unfold _get_schema in Hs.
    destruct (field_descriptors record meta) as [fields|e] eqn:Ef;
      [|discriminate Hs].
    destruct (mapM_ok_each _ _ field Ef Hin) as [d Hd].
    unfold _field_descriptor, _add_type in Hd.
    destruct (foldM add_type_step (field_type field)
                [("name", VStr (field_name field))]) as [d0|e] eqn:Ea;
      [|discriminate Hd].
    eapply add_type_ok_enums; eassumption.
  - intros Hwf.
    destruct (field_descriptors_total record meta Hwf) as [fields Hf].
    destruct (get_schema_linked record meta Hf) as (s1 & Hrun & _). eauto.
  - intros e. apply get_schema_error.
Qed.

(** X7: when the node's annotations have no key [foreignKeys], the built
    schema has a [foreignKeys] entry exactly when the node has links; for a
    node without links the relations of a record play no part: resolving
    the foreign keys returns the record's object as it is. *)
Theorem foreign_keys_entry_iff_links (record : NodeSchema)
  (meta : NodeMetadata) (s : odict) :
  ~ In "foreignKeys" (map fst (nm_values meta)) ->
  _get_schema record meta = Ok s ->
  (sget "foreignKeys" s = None <-> nm_links meta = []) /\
  (nm_links meta = [] ->
   forall r, resolve_foreign_keys r s = Ok (rec_object r)).
Proof.
  intros Hv Hs.
  assert (Hfk : sget "foreignKeys" s
                = match nm_links meta with
                  | [] => None
                  | _ :: _ => Some (VList (map foreign_key (nm_links meta)))
                  end).
  { unfold _get_schema in Hs.
    destruct (field_descriptors record meta) as [fields|e] eqn:Ef;
      [|discriminate Hs].
    destruct (get_schema_linked record meta Ef) as (s1 & Hrun & _ & Hfk & _).
    unfold _get_schema in Hrun. rewrite Ef in Hrun. rewrite Hrun in Hs.
    injection Hs as <-.
    rewrite annotate_schema_keeps by (discriminate || exact Hv). exact Hfk. }
  split.
  - rewrite Hfk. destruct (nm_links meta); split; congruence.
  - intros Hl r. unfold resolve_foreign_keys. rewrite Hfk, Hl. reflexivity.
Qed.

Lemma foreign_keys_entry_iff_links_witness :
  exists s, _get_schema subject_node subject_meta = Ok s /\
            sget "foreignKeys" s = None /\
            resolve_foreign_keys
              (aliquot_of [sample_S1] [("submitter_id", VStr "A1")]) s
            = Ok [("submitter_id", VStr "A1")].
Proof.
  eexists. split; [reflexivity|].
  destruct (@foreign_keys_entry_iff_links subject_node subject_meta _
              (fun H : In "foreignKeys" [] => H) eq_refl) as [Hiff Hres].
  split; [apply Hiff; reflexivity|].
  apply (Hres eq_refl (aliquot_of [sample_S1] [("submitter_id", VStr "A1")])).
Defined.

Lemma index_by_name_In {A : Type} (name : A -> string) (l : list A)
  (k : string) :
  In k (map name l) -> exists x, dget String.eqb k (index_by_name name l) = Some x.
Proof.
  intros H. destruct (dget String.eqb k (index_by_name name l)) eqn:E; [eauto|].
  apply index_by_name_None in E. contradiction.
Qed.

Lemma get_schemas_loop (meta : list (string * NodeMetadata))
  (nodes : list NodeSchema) (acc schemas : list (string * odict)) :
  foldM (get_schemas_step meta) nodes acc = Ok schemas ->
  (NoDup (dkeys acc) -> NoDup (dkeys schemas)) /\
  (forall t, In t (dkeys schemas)
             <-> In t (dkeys acc) \/ In t (map ns_name nodes)) /\
  (forall t s, dget String.eqb t schemas = Some s ->
               dget String.eqb t acc = Some s \/
               exists node m, In node nodes /\ ns_name node = t /\
                              dget String.eqb t meta = Some m /\
                              _get_schema node m = Ok s) /\
  ((forall n, In n (map ns_name nodes) -> ~ In n (dkeys acc)) ->
   NoDup (map ns_name nodes) ->
   dkeys schemas = dkeys acc ++ map ns_name nodes).
Proof.
  revert acc. induction nodes as [|node nodes IH]; intros acc; cbn [foldM].
  - intros [= <-]. cbn [map]. rewrite app_nil_r.
    split; [auto|]. split; [intros t; cbn [In]; tauto|].
    split; [intros t s Hs; now left|reflexivity].
  - unfold get_schemas_step at 1.
    destruct (dget String.eqb (ns_name node) meta) as [m|] eqn:Em;
      cbn [bind]; [|discriminate].
    destruct (_get_schema node m) as [s0|e] eqn:Es; cbn [bind]; [|discriminate].
    intros Hrest. destruct (IH _ Hrest) as (H1 & H2 & H3 & H4).
    split; [|split; [|split]].
    + intros Hnd. apply H1. unfold dkeys in *.
      clear - Hnd. induction acc as [|[k0 v0] acc IHa]; simpl.
      * constructor; [intros []|constructor].
      * inversion Hnd as [|? ? Hn Hd]; subst.
        destruct (String.eqb (ns_name node) k0) eqn:E; simpl.
        -- constructor; assumption.
        -- constructor; [|now apply IHa].
           intros Hin.
           apply (dkeys_dset String.eqb String.eqb_eq) in Hin.
           destruct Hin as [->|Hin]; [|contradiction].
           rewrite String.eqb_refl in E. discriminate E.
    + intros t. rewrite H2, dkeys_dset by apply String.eqb_eq.
      cbn [map In]. intuition congruence.
    + intros t s Hget. destruct (H3 t s Hget) as [Hacc|(n & m' & Hin & Hrest')].
      * destruct (string_dec t (ns_name node)) as [->|Hne].
        -- rewrite dget_dset_same in Hacc by apply String.eqb_eq.
           injection Hacc as <-. right. exists node, m. cbn [In]. auto.
        -- rewrite dget_dset_other in Hacc
             by (apply String.eqb_eq || exact Hne). now left.
      * right. exists n, m'. cbn [In]. tauto.
    + intros Hfresh Hnd. cbn [map] in *. inversion Hnd as [|? ? Hn Hd]; subst.
      rewrite H4; [| |exact Hd].
      * unfold dkeys at 1.
        assert (Hset : dset String.eqb (ns_name node) s0 acc
                       = acc ++ [(ns_name node, s0)]).
        { assert (Hout : ~ In (ns_name node) (dkeys acc))
            by (apply Hfresh; now left).
          clear - Hout. induction acc as [|[k0 v0] acc IHa]; simpl;
            [reflexivity|].
          destruct (String.eqb (ns_name node) k0) eqn:E.
          - apply String.eqb_eq in E. subst k0. simpl in Hout. tauto.
          - f_equal. apply IHa. simpl in Hout. tauto. }
        rewrite Hset, map_app, <- app_assoc. reflexivity.
      * intros n Hin Hacc.
        apply (dkeys_dset String.eqb String.eqb_eq) in Hacc.
        destruct Hacc as [->|Hacc]; [contradiction|].
        apply (Hfresh n); [now right|exact Hacc].
Qed.

(** X8: the catalog has one entry per node name of the schema listing and
    no other key, so metadata of nodes that are not listed adds nothing;
    each entry is the schema [_get_schema] builds from a listed node of that
    name and a metadata entry of that name; when the listed names are
    distinct, the catalog's keys are the listed names in their order. *)
Theorem get_schemas_catalog (reader : Reader) (schemas : list (string * odict)) :
  _get_schemas reader = Ok schemas ->
  NoDup (dkeys schemas) /\
  (forall t, In t (dkeys schemas) <-> In t (map ns_name (schema reader))) /\
  (forall t s, dget String.eqb t schemas = Some s ->
               exists node m,
                 In node (schema reader) /\ ns_name node = t /\
                 In m (metadata_nodes reader) /\ nm_name m = t /\
                 _get_schema node m = Ok s) /\
  (NoDup (map ns_name (schema reader)) ->
   dkeys schemas = map ns_name (schema reader)).
Proof.
  unfold _get_schemas. intros H.
  apply get_schemas_loop in H. destruct H as (H1 & H2 & H3 & H4).
  split; [apply H1; constructor|]. split; [|split].
  - intros t. rewrite H2. cbn [dkeys map In]. tauto.
  - intros t s Hget.
    destruct (H3 t s Hget) as [Hacc|(node & m & Hin & Hn & Hm & Hs)];
      [discriminate Hacc|].
    apply index_by_name_get in Hm. destruct Hm as [Hm1 Hm2].
    exists node, m. auto.
  - intros Hnd. rewrite H4; [reflexivity|intros n _ []|exact Hnd].
Qed.

Lemma get_schemas_catalog_witness :
  exists schemas, _get_schemas declared_reader = Ok schemas /\
                  dkeys schemas = ["subject"].
Proof.
  eexists. split; [reflexivity|].
  destruct (@get_schemas_catalog declared_reader _ eq_refl) as (_ & _ & _ & H).
  apply H. constructor; [intros []|constructor].
Defined.

(** ** Rows *)

Lemma resolve_foreign_keys_keeps (r : PfbRecord) (schema dict : odict)
  (f : string) :
  resolve_foreign_keys r schema = Ok dict ->
  (forall fks items k,
      sget "foreignKeys" schema = Some fks -> iter_items fks = Ok items ->
      In k items -> getitem k "fields" <> Ok (VStr f)) ->
  sget f dict = sget f (rec_object r).
Proof.
  unfold resolve_foreign_keys.
  destruct (sget "foreignKeys" schema) as [fks|]; [|now intros [= <-]].
  destruct (iter_items fks) as [items|e] eqn:Ei; cbn [bind]; [|discriminate].
  intros Hrun Hno. eapply resolve_loop_keeps; [|exact Hrun].
  intros k Hk. now apply (Hno fks items k).
Qed.

(** X9: when [_write_record] returns, the writer is the one it was given
    with one more row after the rows it had: the row has one cell per field
    name, and the cell of a field name that is no foreign-key column holds
    the value the record's object has under that name, or the empty string
    when the object has no such key. *)
Theorem write_record_row (w w' : DictWriter) (r : PfbRecord) (schema : odict) :
  _write_record w r schema = Ok w' ->
  exists row,
    w_path w' = w_path w /\
    w_fieldnames w' = w_fieldnames w /\
    w_rows w' = w_rows w ++ [row] /\
    List.length row = List.length (w_fieldnames w) /\
    forall j f,
      nth_error (w_fieldnames w) j = Some f ->
      (forall fks items k,
          sget "foreignKeys" schema = Some fks -> iter_items fks = Ok items ->
          In k items -> getitem k "fields" <> Ok (VStr f)) ->
      nth_error row j = Some (match sget f (rec_object r) with
                              | Some v => v
                              | None => VStr ""
                              end).
Proof.
  unfold _write_record.
  destruct (resolve_foreign_keys r schema) as [dict|e] eqn:Er; cbn [bind];
    [|discriminate].
  intros Hw. apply writerow_inv in Hw. destruct Hw as [-> _].
  exists (dict_to_list (w_fieldnames w) dict). cbn [emit w_path w_fieldnames w_rows].
  repeat split; [unfold dict_to_list; apply length_map|].
  intros j f Hj Hno. unfold dict_to_list. rewrite nth_error_map, Hj.
  cbn [option_map].
  rewrite resolve_foreign_keys_keeps with (r := r) (schema := schema);
    [reflexivity|exact Er|exact Hno].
Qed.

Lemma write_record_row_witness :
  exists w' row,
    _write_record aliquot_writer
      (aliquot_of [sample_S1] [("submitter_id", VStr "A1")]) aliquot_schema
    = Ok w' /\
    w_rows w' = w_rows aliquot_writer ++ [row] /\
    nth_error row 0 = Some (VStr "A1").
Proof.
  eexists.
  destruct (@write_record_row aliquot_writer _
              (aliquot_of [sample_S1] [("submitter_id", VStr "A1")])
              aliquot_schema eq_refl)
    as (row & _ & _ & Hrows & _ & Hcell).
  exists row. split; [reflexivity|]. split; [exact Hrows|].
  apply (Hcell 0%nat "submitter_id" eq_refl).
  intros fks items k [= <-] [= <-] [<-|[]]. discriminate.
Defined.

(** X10: once the foreign keys of a record are resolved, its keys are the
    keys of the record's object and the columns of the schema's foreign
    keys, whatever the record's relations are; and [_write_record] returns
    exactly when all of them are field names of the writer. *)
Theorem write_record_returns_iff_keys_are_fields (w : DictWriter)
  (r : PfbRecord) (schema dict : odict) :
  resolve_foreign_keys r schema = Ok dict ->
  (forall key,
      In key (dkeys dict)
      <-> In key (dkeys (rec_object r)) \/
          exists fks items k,
            sget "foreignKeys" schema = Some fks /\
            iter_items fks = Ok items /\ In k items /\
            getitem k "fields" = Ok (VStr key)) /\
  ((exists w', _write_record w r schema = Ok w')
   <-> forall key, In key (dkeys dict) -> In key (w_fieldnames w)).
Proof.
  intros Hres. split.
  - intros key. unfold resolve_foreign_keys in Hres.
    destruct (sget "foreignKeys" schema) as [fks|].
    + destruct (iter_items fks) as [items|e] eqn:Ei; cbn [bind] in Hres;
        [|discriminate Hres].
      rewrite (resolve_loop_keys _ _ _ Hres key). split.
      * intros [H|(k & Hk & Hf)]; [now left|right].
        exists fks, items, k. auto.
      * intros [H|(fks' & items' & k & [= <-] & Hi & Hk & Hf)]; [now left|].
        rewrite Ei in Hi. injection Hi as <-. right. eauto.
    + injection Hres as <-. split; [now left|].
      intros [H|(fks & items & k & Hf & _)]; [exact H|discriminate Hf].
  - unfold _write_record. rewrite Hres. cbn [bind]. split.
    + intros [w' Hw]. now apply writerow_inv in Hw.
    + intros Hkeys. rewrite writerow_ok by exact Hkeys. eauto.
Qed.

Lemma write_record_returns_iff_keys_are_fields_witness :
  exists w',
    _write_record aliquot_writer
      (aliquot_of [] [("submitter_id", VStr "A1")]) aliquot_schema = Ok w'.
Proof.
  destruct (@write_record_returns_iff_keys_are_fields aliquot_writer
              (aliquot_of [] [("submitter_id", VStr "A1")]) aliquot_schema
              [("submitter_id", VStr "A1"); ("sample_id", VNone)] eq_refl)
    as [_ Hiff].
  apply Hiff. intros key [<-|[<-|[]]]; simpl; auto.
Defined.

(** ** Records without a project *)



(** ** What the table pass does to the disk *)


(** A property of the disk that survives the two writes of [open_table]
    survives the whole pass, however it ends. *)
Section Preserved.
Variables (schemas : list (string * odict)) (outdir : path) (P : Disk -> Prop).
Hypothesis Hjson : forall pid t schema d,
    dget String.eqb t schemas = Some schema -> P d ->
    P (dset path_eqb (schema_path (outdir / lower pid / "data") t)
         (JsonFile (VDict schema)) d).
Hypothesis Hdata : forall pid t d,
    P d -> P (dset path_eqb (data_path (outdir / lower pid) t) DataFile d).






End Preserved.



(** ** The packages of a pass *)

Lemma dget_entry {V : Type} (k : string) (v : V) (d : list (string * V)) :
  dget String.eqb k d = Some v -> In (k, v) d.
Proof.
  induction d as [|[k0 v0] d IH]; simpl; [discriminate|].
  destruct (String.eqb k k0) eqn:E.
  - apply String.eqb_eq in E. subst k0. intros [= <-]. now left.
  - intros H. right. now apply IH.
Qed.

Lemma dset_string_fresh {V : Type} (k : string) (v : V) (d : list (string * V)) :
  ~ In k (dkeys d) -> dset String.eqb k v d = d ++ [(k, v)].
Proof.
  induction d as [|[k0 v0] d IH]; simpl; intros H; [reflexivity|].
  destruct (String.eqb k k0) eqn:E.
  - apply String.eqb_eq in E. subst k0. tauto.
  - f_equal. apply IH. tauto.
Qed.

Lemma ensure_package_pkgs (schemas : list (string * odict)) (outdir : path)
  (pkgs pkgs1 : list (string * path)) (pid : string) (st st1 : state) :
  ensure_package schemas outdir pkgs pid st = (Ok pkgs1, st1) ->
  (In pid (dkeys pkgs) /\ pkgs1 = pkgs /\ st1 = st) \/
  (~ In pid (dkeys pkgs) /\ pkgs1 = pkgs ++ [(pid, outdir / lower pid)] /\
   forM (open_table schemas (outdir / lower pid) pid) (dkeys schemas) st
   = (Ok tt, st1)).
Proof.
  unfold ensure_package, dmem.
  destruct (dget String.eqb pid pkgs) as [p|] eqn:E.
  - unfold ret. intros [= <- <-]. left.
    apply dget_Some_In in E; [auto|apply String.eqb_eq].
  - apply dget_None in E; [|apply String.eqb_eq]. unfold bindM, ret.
    destruct (forM _ (dkeys schemas) st) as [[u|e] st2] eqn:Ef; [|discriminate].
    destruct u. intros [= <- <-]. right.
    rewrite dset_string_fresh by exact E. auto.
Qed.

Lemma step_inv (schemas : list (string * odict)) (outdir : path)
  (pkgs pkgs' : list (string * path)) (r : PfbRecord) (st st' : state) :
  write_tables_step schemas outdir pkgs r st = (Ok pkgs', st') ->
  exists pid st1,
    project_of r = Ok pid /\
    ensure_package schemas outdir pkgs pid st = (Ok pkgs', st1) /\
    write_row pid schemas r st1 = (Ok tt, st').
Proof.
  unfold write_tables_step, bindM, lift.
  destruct (project_of r) as [pid|e] eqn:Ep; [|discriminate].
  destruct (ensure_package schemas outdir pkgs pid st) as [[pkgs1|e] st1] eqn:Ee;
    [|discriminate].
  destruct (write_row pid schemas r st1) as [[u|e] st2] eqn:Ew; [|discriminate].
  destruct u. unfold ret. intros [= <- <-]. exists pid, st1. auto.
Qed.




(** ** The rows of a pass *)

Lemma logged_open (schemas : list (string * odict)) (pkg : path)
  (pid t pid' t' : string) (done : list PfbRecord) (st st' : state) :
  open_table schemas pkg pid' t' st = (Ok tt, st') ->
  (logged schemas pid t done (writers st) /\ (pid', t') <> (pid, t))
  \/ ((pid', t') = (pid, t) /\ filter (seen pid t) done = []) ->
  logged schemas pid t done (writers st').
Proof.
  intros Hopen H. apply open_table_inv in Hopen.
  destruct Hopen as (schema & names & Hs & Hn & ->). cbn [writers].
  destruct H as [[(w & schema0 & rows & Hw & Hrest) Hne]|[[= -> ->] Hnil]].
  - exists w, schema0, rows. split; [|exact Hrest].
    rewrite dget_dset_other; [exact Hw|apply pair_eqb_eq|congruence].
  - eexists. exists schema, []. split; [apply dget_dset_same, pair_eqb_eq|].
    cbn [writeheader emit w_path w_fieldnames w_rows app].
    rewrite Hnil. repeat split; try assumption. constructor.
Qed.

Lemma logged_provision (schemas : list (string * odict)) (pkg : path)
  (pid' : string) (done : list PfbRecord) (ts : list string) (st st' : state) :
  (forall t, filter (seen pid' t) done = []) ->
  forM (open_table schemas pkg pid') ts st = (Ok tt, st') ->
  forall pid t,
    (pid = pid' /\ In t ts) \/ logged schemas pid t done (writers st) ->
    logged schemas pid t done (writers st').
Proof.
  intros Hfresh. revert st. induction ts as [|t1 ts IH]; intros st.
  - cbn [forM]. unfold ret. intros [= <-] pid t [[_ []]|H]. exact H.
  - cbn [forM]. unfold bindM.
    destruct (open_table schemas pkg pid' t1 st) as [[u|e] st1] eqn:E;
      [destruct u|discriminate].
    intros Hrest pid t H. apply (IH st1 Hrest).
    destruct (string_dec pid pid') as [->|Hp];
      [destruct (string_dec t t1) as [->|Ht]|].
    + right. eapply logged_open; [exact E|]. right. auto.
    + destruct H as [[_ [Heq|Hin]]|H]; [congruence|left; auto|].
      right. eapply logged_open; [exact E|]. left. split; [exact H|congruence].
    + destruct H as [[Heq _]|H]; [congruence|].
      right. eapply logged_open; [exact E|]. left. split; [exact H|congruence].
Qed.

Lemma write_row_log (pid : string) (schemas : list (string * odict))
  (r : PfbRecord) (st st' : state) :
  write_row pid schemas r st = (Ok tt, st') ->
  exists w schema dict,
    dget pair_eqb (pid, rec_name r) (writers st) = Some w /\
    dget String.eqb (rec_name r) schemas = Some schema /\
    resolve_foreign_keys r schema = Ok dict /\
    writers st'
    = dset pair_eqb (pid, rec_name r)
        (emit w (dict_to_list (w_fieldnames w) dict)) (writers st).
Proof.
  unfold write_row.
  destruct (dget pair_eqb (pid, rec_name r) (writers st)) as [w|] eqn:Ew;
    [|discriminate].
  destruct (dget String.eqb (rec_name r) schemas) as [schema|] eqn:Es;
    [|discriminate].
  unfold _write_record.
  destruct (resolve_foreign_keys r schema) as [dict|e] eqn:Er; cbn [bind];
    [|discriminate].
  destruct (writerow w dict) as [w'|e] eqn:Ewr; [|discriminate].
  intros [= <-]. apply writerow_inv in Ewr. destruct Ewr as [-> _].
  exists w, schema, dict. auto.
Qed.

Lemma logged_write_row (schemas : list (string * odict)) (pid pid0 t0 : string)
  (done : list PfbRecord) (r : PfbRecord) (st st' : state) :
  project_of r = Ok pid ->
  write_row pid schemas r st = (Ok tt, st') ->
  logged schemas pid0 t0 done (writers st) ->
  logged schemas pid0 t0 (done ++ [r]) (writers st').
Proof.
  intros Hp Hw (w0 & schema0 & rows & Hget & Hs & Hn & Hrows & Hall).
  apply write_row_log in Hw.
  destruct Hw as (w & schema & dict & Hgw & Hgs & Hres & ->).
  unfold logged. rewrite filter_app. cbn [filter]. unfold seen at 2.
  rewrite Hp.
  destruct (String.eqb pid pid0 && String.eqb (rec_name r) t0) eqn:E.
  - apply andb_true_iff in E. destruct E as [E1 E2].
    apply String.eqb_eq in E1, E2. subst pid0 t0.
    rewrite Hgw in Hget. injection Hget as ->.
    rewrite Hgs in Hs. injection Hs as ->.
    exists (emit w0 (dict_to_list (w_fieldnames w0) dict)), schema0,
           (rows ++ [dict_to_list (w_fieldnames w0) dict]).
    split; [apply dget_dset_same, pair_eqb_eq|].
    cbn [emit w_path w_fieldnames w_rows]. rewrite Hrows.
    repeat split; try assumption.
    apply Forall2_app; [exact Hall|]. constructor; [|constructor].
    exists dict. auto.
  - rewrite app_nil_r. exists w0, schema0, rows.
    rewrite dget_dset_other; [auto 10|apply pair_eqb_eq|].
    intros [= -> ->]. rewrite !String.eqb_refl in E. discriminate E.
Qed.

Lemma filter_seen_unseen (done : list PfbRecord) (pid t : string) :
  (forall r, In r done -> project_of r <> Ok pid) ->
  filter (seen pid t) done = [].
Proof.
  induction done as [|r done IH]; intros H; [reflexivity|].
  cbn [filter]. unfold seen at 1. pose proof (H r (or_introl eq_refl)) as Hr.
  destruct (project_of r) as [p|e]; [|apply IH; intros; apply H; now right].
  destruct (String.eqb p pid) eqn:E.
  - apply String.eqb_eq in E. congruence.
  - cbn [andb]. apply IH. intros; apply H; now right.
Qed.

Lemma logged_loop (schemas : list (string * odict)) (outdir : path)
  (rest done : list PfbRecord) (pkgs pkgs' : list (string * path))
  (st st' : state) :
  tables_invariant schemas outdir done pkgs st ->
  (forall pid t, In pid (dkeys pkgs) -> In t (dkeys schemas) ->
                 logged schemas pid t done (writers st)) ->
  foldMS (write_tables_step schemas outdir) rest pkgs st = (Ok pkgs', st') ->
  forall pid t, In pid (dkeys pkgs') -> In t (dkeys schemas) ->
                logged schemas pid t (done ++ rest) (writers st').
Proof.
  revert done pkgs st. induction rest as [|r rest IH]; intros done pkgs st Hinv J.
  - cbn [foldMS]. unfold ret. intros [= <- <-]. now rewrite app_nil_r.
  - cbn [foldMS]. unfold bindM.
    destruct (write_tables_step schemas outdir pkgs r st)
      as [[pkgs1|e] st1] eqn:E; [|discriminate].
    intros Hrest.
    replace (done ++ r :: rest) with ((done ++ [r]) ++ rest)
      by (now rewrite <- app_assoc).
    apply (IH (done ++ [r]) pkgs1 st1); [|clear IH Hrest|exact Hrest].
    + eapply tables_invariant_step; eassumption.
    + destruct Hinv as (I1 & _ & _).
      apply step_inv in E. destruct E as (pid & st0 & Hp & He & Hw).
      intros pid0 t0 Hin Ht.
      eapply logged_write_row; [exact Hp|exact Hw|].
      apply ensure_package_pkgs in He.
      destruct He as [(_ & -> & ->)|(Hout & -> & Hf)]; [now apply J|].
      eapply logged_provision; [|exact Hf|].
      * intros t. apply filter_seen_unseen.
        intros r0 Hr0 E0. apply Hout. now apply (I1 r0).
      * unfold dkeys in Hin. rewrite map_app, in_app_iff in Hin.
        destruct Hin as [Hin|[<-|[]]]; [right; now apply J|left; auto].
Qed.

(** X14: when the table pass returns, the writer of every node of the
    catalog under every project of the stream has the field names of the
    node's schema, and what it has written is the header followed by one row
    per record of that project and node, in the order of the stream, each
    row holding the cells of the record's object, foreign keys resolved, in
    the order of the field names: no record is dropped, repeated or written
    to another node's file. *)
Theorem write_tables_rows (schemas : list (string * odict))
  (reader : list PfbRecord) (outdir : path) (d : Disk)
  (pkgs : list (string * path)) (st : state) (r : PfbRecord) (pid t : string) :
  _write_tables schemas reader outdir d = (Ok pkgs, st) ->
  In r reader -> project_of r = Ok pid -> In t (dkeys schemas) ->
  exists w schema rows,
    dget pair_eqb (pid, t) (writers st) = Some w /\
    dget String.eqb t schemas = Some schema /\
    schema_fieldnames schema = Ok (w_fieldnames w) /\
    w_rows w = map VStr (w_fieldnames w) :: rows /\
    Forall2 (fun r' row =>
               exists dict, resolve_foreign_keys r' schema = Ok dict /\
                            row = dict_to_list (w_fieldnames w) dict)
            (filter (seen pid t) reader) rows.
Proof.
  unfold _write_tables. intros Hrun Hr Hp Ht.
  pose proof (@tables_invariant_loop schemas outdir reader [] [] pkgs _ st
                (tables_invariant_start schemas outdir d) Hrun) as (I1 & _ & _).
  cbn [app] in I1.
  apply (@logged_loop schemas outdir reader [] [] pkgs _ st
           (tables_invariant_start schemas outdir d)
           (fun pid t (H : In pid []) => match H with end) Hrun pid t
           (I1 r pid Hr Hp) Ht).
Qed.

Lemma write_tables_rows_witness :
  exists st w,
    _write_tables plain_catalog [subject_A1; subject_A2] ["out"] []
    = (Ok [("proj1", ["out"; "proj1"])], st) /\
    dget pair_eqb ("proj1", "subject") (writers st) = Some w /\
    w_rows w = [[VStr "submitter_id"; VStr "age"; VStr "project_id"];
                [VStr "A1"; VInt 30; VStr "proj1"];
                [VStr "A2"; VInt 41; VStr "proj1"]].
Proof.
  eexists.
  destruct (@write_tables_rows plain_catalog [subject_A1; subject_A2]
              ["out"] [] [("proj1", ["out"; "proj1"])] _ subject_A1
              "proj1" "subject" eq_refl (or_introl eq_refl) eq_refl
              (or_introl eq_refl))
    as (w & schema & rows & Hw & _).
  exists w. split; [reflexivity|]. split; [exact Hw|].
  injection Hw as <-. reflexivity.
Defined.

(** ** The schema files and the package descriptors *)













(** ** Names that collide *)

(** X17: project ids that differ in case only are two packages of the pass
    but one directory: both are returned, mapped to the same path, and each
    node has two writers, one per project id, opened on the same data
    file. *)
Theorem project_ids_differing_in_case_share_files
  (schemas : list (string * odict)) (reader : list PfbRecord) (outdir : path)
  (d : Disk) (pkgs : list (string * path)) (st : state)
  (r1 r2 : PfbRecord) (p1 p2 t : string) :
  _write_tables schemas reader outdir d = (Ok pkgs, st) ->
  In r1 reader -> project_of r1 = Ok p1 ->
  In r2 reader -> project_of r2 = Ok p2 ->
  p1 <> p2 -> lower p1 = lower p2 -> In t (dkeys schemas) ->
  In p1 (dkeys pkgs) /\ In p2 (dkeys pkgs) /\
  (exists dir, In (p1, dir) pkgs /\ In (p2, dir) pkgs) /\
  exists w1 w2,
    dget pair_eqb (p1, t) (writers st) = Some w1 /\
    dget pair_eqb (p2, t) (writers st) = Some w2 /\
    w_path w1 = w_path w2 /\
    dget path_eqb (w_path w1) (disk st) = Some DataFile.
Proof.
  unfold _write_tables. intros Hrun Hr1 Hp1 Hr2 Hp2 Hne Hl Ht.
  pose proof (@tables_invariant_loop schemas outdir reader [] [] pkgs _ st
                (tables_invariant_start schemas outdir d) Hrun) as (I1 & I2 & I3).
  cbn [app] in I1, I2.
  pose proof (I1 r1 p1 Hr1 Hp1) as Hin1. pose proof (I1 r2 p2 Hr2 Hp2) as Hin2.
  split; [exact Hin1|]. split; [exact Hin2|]. split.
  - destruct (dget_In String.eqb String.eqb_eq _ _ Hin1) as [d1 Hd1].
    destruct (dget_In String.eqb String.eqb_eq _ _ Hin2) as [d2 Hd2].
    apply dget_entry in Hd1, Hd2.
    exists d1. split; [exact Hd1|].
    rewrite (I3 _ _ Hd1), Hl, <- (I3 _ _ Hd2). exact Hd2.
  - destruct (I2 p1 t Hin1 Ht) as [[Hd _] (w1 & _ & _ & Hw1 & Hpath1 & _)].
    destruct (I2 p2 t Hin2 Ht) as [_ (w2 & _ & _ & Hw2 & Hpath2 & _)].
    exists w1, w2. rewrite Hpath1, Hpath2. rewrite Hl in *.
    repeat split; assumption.
Qed.

Lemma project_ids_differing_in_case_share_files_witness :
  exists pkgs st w1 w2,
    _write_tables plain_catalog [subject_A1; subject_B1] ["out"] []
    = (Ok pkgs, st) /\
    dget pair_eqb ("proj1", "subject") (writers st) = Some w1 /\
    dget pair_eqb ("Proj1", "subject") (writers st) = Some w2 /\
    w_path w1 = w_path w2.
Proof.
  eexists. eexists.
  destruct (@project_ids_differing_in_case_share_files plain_catalog
              [subject_A1; subject_B1] ["out"] [] _ _ subject_A1 subject_B1
              "proj1" "Proj1" "subject" eq_refl (or_introl eq_refl) eq_refl
              (or_intror (or_introl eq_refl)) eq_refl)
    as (_ & _ & _ & w1 & w2 & H1 & H2 & Hp & _).
  - discriminate.
  - reflexivity.
  - left. reflexivity.
  - exists w1, w2. split; [reflexivity|]. auto.
Defined.

Lemma index_by_name_last {A : Type} (name : A -> string) (pre post : list A)
  (x : A) :
  (forall y, In y post -> name y <> name x) ->
  dget String.eqb (name x) (index_by_name name (pre ++ x :: post)) = Some x.
Proof.
  intros H. unfold index_by_name. rewrite fold_left_app. cbn [fold_left].
  generalize (fold_left (fun d y => dset String.eqb (name y) y d) pre []).
  intros d0.
  assert (G : forall l d, (forall y, In y l -> name y <> name x) ->
             dget String.eqb (name x)
               (fold_left (fun d y => dset String.eqb (name y) y d) l d)
             = dget String.eqb (name x) d).
  { induction l as [|y l IH]; intros d Hl; [reflexivity|]. cbn [fold_left].
    rewrite IH by (intros; apply Hl; now right).
    apply dget_dset_other; [apply String.eqb_eq|].
    intros E. apply (Hl y (or_introl eq_refl)). now symmetry. }
  rewrite G by exact H. apply dget_dset_same, String.eqb_eq.
Qed.

Lemma get_schemas_later_nodes (meta : list (string * NodeMetadata))
  (nodes : list NodeSchema) (acc schemas : list (string * odict)) (t : string) :
  (forall n, In n nodes -> ns_name n <> t) ->
  foldM (get_schemas_step meta) nodes acc = Ok schemas ->
  dget String.eqb t schemas = dget String.eqb t acc.
Proof.
  revert acc. induction nodes as [|n nodes IH]; intros acc Hn; cbn [foldM].
  - now intros [= <-].
  - unfold get_schemas_step at 1.
    destruct (dget String.eqb (ns_name n) meta) as [m|]; cbn [bind];
      [|discriminate].
    destruct (_get_schema n m) as [s0|e]; cbn [bind]; [|discriminate].
    intros Hrest. rewrite (IH _ (fun x Hx => Hn x (or_intror Hx)) Hrest).
    apply dget_dset_other; [apply String.eqb_eq|].
    intros E. apply (Hn n (or_introl eq_refl)). now symmetry.
Qed.

(** X18: names that occur twice are settled by the last occurrence: the
    catalog entry of a name is the schema built from the last listed node of
    that name and the last metadata entry of that name. *)
Theorem catalog_entry_is_from_last_occurrences (reader : Reader)
  (schemas : list (string * odict))
  (npre npost : list NodeSchema) (node : NodeSchema)
  (mpre mpost : list NodeMetadata) (m : NodeMetadata) :
  _get_schemas reader = Ok schemas ->
  schema reader = npre ++ node :: npost ->
  (forall n, In n npost -> ns_name n <> ns_name node) ->
  metadata_nodes reader = mpre ++ m :: mpost ->
  nm_name m = ns_name node ->
  (forall x, In x mpost -> nm_name x <> nm_name m) ->
  exists s, _get_schema node m = Ok s /\
            dget String.eqb (ns_name node) schemas = Some s.
Proof.
  unfold _get_schemas. intros Hrun Hn Hnpost Hm Hname Hmpost.
  rewrite Hn in Hrun. apply foldM_split in Hrun.
  destruct Hrun as (acc0 & acc1 & _ & Hstep & Hrest).
  unfold get_schemas_step in Hstep. rewrite Hm, <- Hname in Hstep.
  rewrite index_by_name_last in Hstep by exact Hmpost.
  destruct (_get_schema node m) as [s|e] eqn:Es; cbn [bind] in Hstep;
    [|discriminate Hstep].
  injection Hstep as <-. exists s. split; [reflexivity|].
  rewrite (get_schemas_later_nodes _ _ _ Hnpost Hrest).
  rewrite Hname. apply dget_dset_same, String.eqb_eq.
Qed.

Lemma catalog_entry_is_from_last_occurrences_witness :
  exists schemas s,
    _get_schemas twice_reader = Ok schemas /\
    dget String.eqb "subject" schemas = Some s /\
    sget "ontology_reference" s = Some (VStr "NCIT:C41189") /\
    schema_fieldnames s = Ok ["submitter_id"; "age"].
Proof.
  eexists.
  destruct (@catalog_entry_is_from_last_occurrences twice_reader _
              [subject_node_short] [] subject_node [subject_meta] []
              subject_meta_later eq_refl eq_refl
              (fun n (H : In n []) => match H with end) eq_refl eq_refl
              (fun x (H : In x []) => match H with end))
    as (s & Hs & Hget).
  exists s. split; [reflexivity|]. split; [exact Hget|].
  injection Hs as <-. split; reflexivity.
Defined.

(** ** From the reader to the header *)

Lemma get_schemas_last (reader : Reader) (schemas : list (string * odict))
  (npre npost : list NodeSchema) (node : NodeSchema)
  (mpre mpost : list NodeMetadata) (m : NodeMetadata) :
  _get_schemas reader = Ok schemas ->
  schema reader = npre ++ node :: npost ->
  (forall n, In n npost -> ns_name n <> ns_name node) ->
  metadata_nodes reader = mpre ++ m :: mpost ->
  nm_name m = ns_name node ->
  (forall x, In x mpost -> nm_name x <> nm_name m) ->
  exists s, _get_schema node m = Ok s /\
            dget String.eqb (ns_name node) schemas = Some s.
Proof.
  unfold _get_schemas. intros Hrun Hn Hnpost Hm Hname Hmpost.
  rewrite Hn in Hrun. apply foldM_split in Hrun.
  destruct Hrun as (acc0 & acc1 & _ & Hstep & Hrest).
  unfold get_schemas_step in Hstep. rewrite Hm, <- Hname in Hstep.
  rewrite index_by_name_last in Hstep by exact Hmpost.
  destruct (_get_schema node m) as [s|e] eqn:Es; cbn [bind] in Hstep;
    [|discriminate Hstep].
  injection Hstep as <-. exists s. split; [reflexivity|].
  rewrite (get_schemas_later_nodes _ _ _ Hnpost Hrest).
  rewrite Hname. apply dget_dset_same, String.eqb_eq.
Qed.

Lemma get_schema_fieldnames (record : NodeSchema) (meta : NodeMetadata)
  (s : odict) :
  _get_schema record meta = Ok s ->
  (forall p, In p (nm_properties meta) ->
             ~ In "name" (map fst (fm_values p))) ->
  ~ In "fields" (map fst (nm_values meta)) ->
  schema_fieldnames s
  = Ok (map field_name (ns_fields record) ++ map link_name (nm_links meta)).
Proof.
  intros Hs Hp Hv. unfold _get_schema in Hs.
  destruct (field_descriptors record meta) as [fields|e] eqn:Hf;
    [|discriminate Hs].
  destruct (get_schema_linked record meta Hf) as (s1 & Hrun & Hfields & _).
  unfold _get_schema in Hrun. rewrite Hf in Hrun. rewrite Hrun in Hs.
  injection Hs as <-.
  apply schema_fieldnames_of_descriptors
    with (ds := fields
                ++ map (fun l => [("name", VStr (link_name l))]) (nm_links meta)).
  - rewrite annotate_schema_keeps by (discriminate || exact Hv).
    rewrite Hfields, map_app, map_map. reflexivity.
  - apply Forall2_app.
    + apply Forall2_flip_map.
      exact (field_descriptors_names record meta Hf Hp).
    + clear. induction (nm_links meta) as [|l links IH]; simpl;
        [constructor|constructor; [reflexivity|exact IH]].
Qed.

(** X19: from the reader to the data file: for the last listed node of a
    name and the last metadata entry of that name, when no field annotation
    has the key [name] and no node annotation the key [fields], after a run
    that returns the node's writer under every project of the stream has as
    field names, and has written as its header, the names of the node's
    declared fields in their order followed by the names of the metadata's
    links in their order; every row after the header has as many cells. *)
Theorem header_is_declared_fields_then_links (reader : Reader) (output : path)
  (d : Disk) (schemas : list (string * odict)) (pkgs : list (string * path))
  (st : state) (npre npost : list NodeSchema) (node : NodeSchema)
  (mpre mpost : list NodeMetadata) (m : NodeMetadata)
  (r : PfbRecord) (pid : string) :
  _get_schemas reader = Ok schemas ->
  frictionless reader output d = (Ok pkgs, st) ->
  schema reader = npre ++ node :: npost ->
  (forall n, In n npost -> ns_name n <> ns_name node) ->
  metadata_nodes reader = mpre ++ m :: mpost ->
  nm_name m = ns_name node ->
  (forall x, In x mpost -> nm_name x <> nm_name m) ->
  (forall p, In p (nm_properties m) -> ~ In "name" (map fst (fm_values p))) ->
  ~ In "fields" (map fst (nm_values m)) ->
  In r (records reader) -> project_of r = Ok pid ->
  exists w rows,
    dget pair_eqb (pid, ns_name node) (writers st) = Some w /\
    w_fieldnames w
    = map field_name (ns_fields node) ++ map link_name (nm_links m) /\
    w_rows w
    = map VStr (map field_name (ns_fields node) ++ map link_name (nm_links m))
      :: rows /\
    forall row, In row rows ->
                List.length row
                = (List.length (ns_fields node) + List.length (nm_links m))%nat.
Proof.
  intros Hs Hrun Hn Hnpost Hm Hname Hmpost Hp Hv Hr Hpid.
  destruct (@get_schemas_last reader schemas npre npost node mpre mpost m
              Hs Hn Hnpost Hm Hname Hmpost) as (s & Hbuilt & Hget).
  pose proof (@get_schema_fieldnames node m s Hbuilt Hp Hv) as Hnames.
  apply frictionless_inv in Hrun.
  destruct Hrun as (schemas' & st1 & Hs' & Htables & ->).
  rewrite Hs in Hs'. injection Hs' as <-. unfold _write_tables in Htables.
  pose proof (@tables_invariant_loop schemas output (records reader) [] []
                pkgs _ st1 (tables_invariant_start schemas output d)
                Htables) as (I1 & _ & _).
  cbn [app] in I1.
  assert (Ht : In (ns_name node) (dkeys schemas))
    by (apply dget_Some_In in Hget; [exact Hget|apply String.eqb_eq]).
  destruct (@logged_loop schemas output (records reader) [] [] pkgs _ st1
              (tables_invariant_start schemas output d)
              (fun pid t (H : In pid []) => match H with end) Htables pid
              (ns_name node) (I1 r pid Hr Hpid) Ht)
    as (w & schema & rows & Hw & Hgs & Hfn & Hrows & Hall).
  rewrite Hget in Hgs. injection Hgs as <-.
  rewrite Hnames in Hfn. injection Hfn as Hfn.
  exists w, rows. cbn [writers]. rewrite Hrows, <- Hfn.
  split; [exact Hw|]. split; [reflexivity|]. split; [reflexivity|].
  intros row Hrow. cbn [app] in Hall.
  assert (Hlen : List.length row = List.length (w_fieldnames w)).
  { clear - Hall Hrow. induction Hall as [|r0 row0 l l' H0 _ IH];
      [destruct Hrow|].
    destruct Hrow as [<-|Hrow]; [|now apply IH].
    destruct H0 as (dict & _ & ->). unfold dict_to_list. apply length_map. }
  rewrite Hlen, <- Hfn, length_app, !length_map. reflexivity.
Qed.

Lemma header_is_declared_fields_then_links_witness :
  exists st w,
    frictionless two_subjects_reader ["out"] []
    = (Ok [("proj1", ["out"; "proj1"])], st) /\
    dget pair_eqb ("proj1", "subject") (writers st) = Some w /\
    w_fieldnames w = ["submitter_id"; "age"; "project_id"].
Proof.
  eexists.
  destruct (_get_schemas two_subjects_reader) as [schemas|e] eqn:Es;
    [|discriminate Es].
  destruct (@header_is_declared_fields_then_links two_subjects_reader ["out"]
              [] schemas [("proj1", ["out"; "proj1"])] _ [] []
              {| ns_name := "subject";
                 ns_fields := [submitter_id_field; age_field;
                               project_id_field] |}
              [] [] subject_meta subject_A1 "proj1" Es eq_refl eq_refl
              (fun n (H : In n []) => match H with end) eq_refl eq_refl
              (fun x (H : In x []) => match H with end)
              (fun p (H : In p []) => match H with end)
              (fun H : In "fields" [] => H)
              (or_introl eq_refl) eq_refl)
    as (w & rows & Hw & Hfn & _).
  exists w. split; [reflexivity|]. split; [exact Hw|exact Hfn].
Defined.
